(** * The database curator of grype (db/v6/installation/curator.go)

    A shallow embedding of the curator: the configuration, the on-disk
    state it manages, its collaborators (distribution client, archive
    extraction, JSON decoding, time formatting) and the operations
    [Reader], [Update], [Import], [activate], [validateIntegrity],
    [ensureNotStale], [isUpdateCheckAllowed] and friends, followed by the
    properties established about them.

    Conventions.
    - A path is the list of its components; [path.Join dir name] is
      [dir ++ [name]] and [filepath.Dir] drops the last component.
    - The operating system is a [Disk]: the file tree, the wall clock and
      an oracle saying which system calls fail. A [World] is a disk with
      the trace of what the curator did (newest event first). The
      curator's [fs] and the direct [os] calls act on the same tree, as
      with the [afero.NewOsFs] that [NewCurator] installs.
    - A Go result [(T, error)] of which one side is meaningful is a
      [res T]; a plain [error] is an [option error]; where Go returns
      both sides ([Reader], [Update]) the model returns the pair.
    - [time.Duration] is a 64-bit count of nanoseconds, [time.Time] an
      instant counted in nanoseconds from the Unix epoch. *)

From Stdlib Require Import ZArith String Bool Lia.
From stdpp Require Import base option list gmap strings pretty.

Local Open Scope string_scope.
Local Open Scope list_scope.
Local Open Scope Z_scope.

Abbreviation path := (list string).

(** ** package time *)
Module time.

Definition minDuration : Z := - 2 ^ 63.
Definition maxDuration : Z := 2 ^ 63 - 1.

Definition Nanosecond : Z := 1.
Definition Second : Z := 1000000000.
Definition Minute : Z := 60 * Second.
Definition Hour : Z := 60 * Minute.

(** A value of type [time.Duration]. *)
Definition is_Duration (d : Z) : Prop := minDuration <= d <= maxDuration.

Definition saturate (d : Z) : Z :=
  if d <? minDuration then minDuration
  else if maxDuration <? d then maxDuration
  else d.

(** [t.Sub(u)]: the difference, or the extreme duration when the
    difference does not fit. *)
Definition Sub (t u : Z) : Z := saturate (t - u).

(** [t.Add(d)]. *)
Definition Add (t d : Z) : Z := t + d.

(** [t.UTC()] changes the location the instant is displayed in, not
    the instant. *)
Definition UTC (t : Z) : Z := t.

(** January 1, year 1, 00:00:00 UTC, counted from the Unix epoch. *)
Definition zero : Z := - 62135596800 * Second.

Definition IsZero (t : Z) : bool := t =? zero.

End time.

(** ** Errors

    One constructor per error the curator builds; an argument of type
    [error] is the cause wrapped with [%w], the other arguments are the
    values interpolated into the message. *)

Inductive Op : Type :=
  OpStat | OpOpen | OpRead | OpCreate | OpWrite | OpRemoveAll | OpRename | OpMkdirTemp.

#[global] Instance Op_eq_dec : EqDecision Op.
Proof. solve_decision. Defined.

Inductive error : Type :=
  | ErrNotExist (p : path)
      (* an error for which os.IsNotExist holds *)
  | ErrOs (o : Op) (p : path)
      (* any other error of a system call *)
  | ErrExternal (msg : string)
      (* an error made by a collaborator *)
  | ErrCheckExists (p : path) (cause : error)
      (* unable to check if DB metadata path exists (p): cause *)
  | ErrOpenMetadata (p : path) (cause : error)
      (* unable to open DB metadata path (p): cause *)
  | ErrDecodeMetadata (p : path) (cause : error)
      (* unable to parse DB metadata (p): cause *)
  | ErrParseMetadata (dir : path) (cause : error)
      (* failed to parse database metadata (dir): cause *)
  | ErrMetadataNotFound (dir : path)
      (* database metadata not found: dir *)
  | ErrBadChecksum (dbPath : path) (expected actual : string)
      (* bad db checksum (dbPath): expected vs actual *)
  | ErrUnsupportedVersion (have want : Z)
      (* unsupported database version: have=.. want=.. *)
  | ErrNoMetadata
      (* no metadata to validate *)
  | ErrStale (age maxAge : Z)
      (* the vulnerability database was built <age> ago (max allowed age is <maxAge>) *)
  | ErrReadCurrent (cause : error)
      (* unable to read current database metadata: cause *)
  | ErrUpdate (cause : error)
      (* unable to update vulnerability database: cause *)
  | ErrActivate (cause : error)
      (* unable to activate new vulnerability database: cause *)
  | ErrPurge (cause : error)
      (* failed to purge existing database: cause *)
  | ErrTempDir (cause : error)
      (* unable to create db temp dir: cause *)
  | ErrReadLastCheck (cause : error)
      (* unable to read last update check timestamp: cause *)
  | ErrParseLastCheck (cause : error)
      (* unable to parse last update check timestamp: cause *)
  | ErrEmptyLastCheck
      (* empty update check timestamp *)
  | ErrStatusParse (dir : path) (cause : error)
      (* failed to parse database metadata (dir): cause, as Status reports it *)
  | ErrStatusNotFound (dir : path).
      (* database metadata not found at "dir" *)

Inductive res (A : Type) : Type :=
  | Ok (a : A)
  | Err (e : error).
Arguments Ok {A} a.
Arguments Err {A} e.

(** [os.IsNotExist]. *)
Definition IsNotExist (e : option error) : bool :=
  match e with
  | Some (ErrNotExist _) => true
  | _ => false
  end.

Definition err_of {A} (r : res A) : option error :=
  match r with
  | Ok _ => None
  | Err e => Some e
  end.

(** ** package db (the parts the curator uses) *)
Module db.

Record Description : Type := mkDescription {
  SchemaVersion : string;
  Built : Z;
  Checksum : string;
}.

(** The handle [db.NewReader] gives back. *)
Record Reader : Type := mkReader { DBDirPath : path }.

(** [db.Status]; its fields carry a prefix to keep them apart from those
    of [Description]. *)
Record Status : Type := mkStatus {
  StatusBuilt : Z;
  StatusSchemaVersion : string;
  StatusLocation : path;
  StatusChecksum : string;
  StatusErr : option error;
}.

End db.

(** ** package distribution (the parts the curator uses) *)
Module distribution.

Record Archive : Type := mkArchive {
  Description : db.Description;
  Path : string;
}.

End distribution.

(** ** The file tree *)

Inductive node : Type :=
  | Dir
  | File (content : string).

#[global] Instance node_eq_dec : EqDecision node.
Proof. solve_decision. Defined.

Abbreviation Files := (gmap path node).

(** The root of the tree is always a directory. *)
Definition node_at (fs : Files) (p : path) : option node :=
  match p with
  | [] => Some Dir
  | _ => fs !! p
  end.

Definition is_dir (fs : Files) (p : path) : bool :=
  match node_at fs p with
  | Some Dir => true
  | _ => false
  end.

(** [filepath.Dir]. *)
Definition parent (p : path) : path := removelast p.

(** No regular file sits where [p] or one of the directories leading to
    it would be: looking up a missing name below [p] then fails because
    the name is not there (ENOENT), not because a component of the path
    is not a directory (ENOTDIR). *)
Definition no_file_above (fs : Files) (p : path) : bool :=
  forallb (λ n, match node_at fs (take n p) with
                | Some (File _) => false
                | _ => true
                end)
          (seq 0 (S (length p))).

(** The entries at or below [d]. *)
Definition under (d : path) (fs : Files) : Files :=
  filter (λ kv, d `prefix_of` kv.1) fs.

(** The entries neither at nor below [d]: what [RemoveAll d] leaves. *)
Definition outside (d : path) (fs : Files) : Files :=
  filter (λ kv, ¬ d `prefix_of` kv.1) fs.

(** The tree after the entries at and below [old] moved to [new]. *)
Definition moved (old new : path) (fs : Files) : Files :=
  kmap (λ k : path, new ++ drop (length old) k) (under old fs)
    ∪ outside new (outside old fs).

(** ** Events the curator causes, and the world it runs in *)

Inductive Level : Type := LvlTrace | LvlDebug | LvlInfo | LvlWarn.

Inductive event : Type :=
  | EvPublish
      (* the staged progress object is published on the bus *)
  | EvStage (label : string)
  | EvDownloadCompleted
  | EvImportCompleted
  | EvLog (lvl : Level) (msg : string)
  | EvNewReader (dir : path)
  | EvIsUpdateAvailable (current : option db.Description)
  | EvDownload (a : distribution.Archive) (destParent : path)
  | EvUnarchive (archive : string) (dest : path)
  | EvFs (o : Op) (p : path).
      (* a system call that changes the tree was issued *)

(** What the system calls act on: the tree, the wall clock, and the
    oracle of failing calls. *)
Record Disk : Type := mkDisk {
  files : Files;
  clock : Z;
  faults : Op → path → bool;
}.

Record World : Type := mkWorld {
  disk : Disk;
  trace : list event;
}.

Definition set_files (fs : Files) (w : World) : World :=
  {| disk := {| files := fs; clock := clock (disk w); faults := faults (disk w) |};
     trace := trace w |}.

Definition add_event (e : event) (w : World) : World :=
  {| disk := disk w; trace := e :: trace w |}.

(** ** Code that only reads: a function of the disk *)

Definition R (A : Type) : Type := Disk → A.

#[global] Instance R_ret : MRet R := λ A a d, a.
#[global] Instance R_bind : MBind R := λ A B k m d, k (m d) d.

(** ** Code that acts: state passing over the world *)

Definition M (A : Type) : Type := World → A * World.

#[global] Instance M_ret : MRet M := λ A a w, (a, w).
#[global] Instance M_bind : MBind M := λ A B k m w, let '(a, w') := m w in k a w'.

(** Running read-only code inside acting code. *)
Definition reading {A} (r : R A) : M A := λ w, (r (disk w), w).

Definition emit (e : event) : M unit := λ w, (tt, add_event e w).

(** [defer d] around a body: [d] runs on every way out. *)
Definition defer {A} (d : M unit) (body : M A) : M A :=
  a ← body; _ ← d; mret a.

(** ** System calls *)

(** [fs.Stat]. A path with no entry answers not-exist. Every other
    failure of the call is the oracle's: permissions, I/O, and also a
    path component that is not a directory (ENOTDIR, for which
    [os.IsNotExist] is false), so a state in which a regular file sits
    above [p] is one where the oracle fails the call. Statements that
    assume working stats on missing paths say so with [no_file_above]. *)
Definition Stat (p : path) : R (res node) := λ d,
  if faults d OpStat p then Err (ErrOs OpStat p)
  else match node_at (files d) p with
       | Some n => Ok n
       | None => Err (ErrNotExist p)
       end.

(** [fs.Open] and [fs.OpenFile(.., O_RDONLY, ..)]: the handle is the node
    that was opened. *)
Definition Open (p : path) : R (res node) := λ d,
  if faults d OpOpen p then Err (ErrOs OpOpen p)
  else match node_at (files d) p with
       | Some n => Ok n
       | None => Err (ErrNotExist p)
       end.

(** Reading an open handle to its end. *)
Definition read_all (p : path) (h : node) : res string :=
  match h with
  | File s => Ok s
  | Dir => Err (ErrOs OpRead p)
  end.

(** [fs.OpenFile(p, O_CREATE|O_TRUNC|O_WRONLY, 0644)]. *)
Definition OpenFileCreate (p : path) : M (res path) := λ w,
  let w := add_event (EvFs OpCreate p) w in
  if faults (disk w) OpCreate p then (Err (ErrOs OpCreate p), w)
  else if negb (is_dir (files (disk w)) (parent p)) then (Err (ErrNotExist p), w)
  else match node_at (files (disk w)) p with
       | Some Dir => (Err (ErrOs OpCreate p), w)
       | _ => (Ok p, set_files (<[p := File ""]> (files (disk w))) w)
       end.

(** Writing [s] to a handle just opened by [OpenFileCreate]. *)
Definition Fprintf (fh : path) (s : string) : M (option error) := λ w,
  let w := add_event (EvFs OpWrite fh) w in
  if faults (disk w) OpWrite fh then (Some (ErrOs OpWrite fh), w)
  else (None, set_files (<[fh := File s]> (files (disk w))) w).

(** [fs.RemoveAll]: no error when nothing is there; a failing call is taken
    to remove nothing. *)
Definition RemoveAll (p : path) : M (option error) := λ w,
  let w := add_event (EvFs OpRemoveAll p) w in
  if faults (disk w) OpRemoveAll p then (Some (ErrOs OpRemoveAll p), w)
  else (None, set_files (outside p (files (disk w))) w).

(** [os.Rename]: the source must exist and the target's parent must be
    a directory; a target that is a directory is refused (Go answers
    EEXIST before asking the system, also when source and target are the
    same directory); a regular file is replaced by a regular file only;
    renaming a file onto itself does nothing; a directory does not move
    below itself. *)
Definition Rename (old new : path) : M (option error) := λ w,
  let w := add_event (EvFs OpRename old) w in
  if faults (disk w) OpRename old then (Some (ErrOs OpRename old), w)
  else match node_at (files (disk w)) old with
  | None => (Some (ErrNotExist old), w)
  | Some n =>
    match node_at (files (disk w)) new with
    | Some Dir => (Some (ErrOs OpRename new), w)
    | target =>
      if negb (is_dir (files (disk w)) (parent new)) then (Some (ErrNotExist new), w)
      else if bool_decide (old = new) then (None, w)
      else if bool_decide (old `prefix_of` new) then (Some (ErrOs OpRename new), w)
      else
        match target, n with
        | Some (File _), Dir => (Some (ErrOs OpRename new), w)
        | _, _ => (None, set_files (moved old new (files (disk w))) w)
        end
    end
  end.

Definition Now : R Z := λ d, clock d.

Definition log (lvl : Level) (msg : string) : M unit := emit (EvLog lvl msg).

(** ** The distribution client (an interface the curator is given) *)

Record Client : Type := mkClient {
  IsUpdateAvailable : option db.Description → option distribution.Archive * option error;
  Download : distribution.Archive → path → Files → Files * res path;
}.

(** ** What the curator takes from outside this file *)

Record Env : Type := mkEnv {
  (* constants of package db *)
  ModelVersion : Z;
  VulnerabilityDBFileName : string;
  DescriptionFileName : string;
  (* xdg.CacheHome *)
  CacheHome : path;
  (* SchemaVersion.Model() *)
  Model : string → Z * bool;
  (* db.NewReader, given the directory and the tree *)
  NewReader : path → Files → res db.Reader;
  (* json.Decoder.Decode into a db.Description, given the content *)
  jsonDecode : string → res db.Description;
  (* the digest of a content, rendered as descriptors carry it *)
  hashOf : string → string;
  (* fmt.Fscanf(fh, "%s", &s), given the content *)
  Fscan : string → res string;
  (* time.Parse(time.RFC3339, s) and t.Format(time.RFC3339) *)
  ParseRFC3339 : string → res Z;
  FormatRFC3339 : Z → string;
  (* archiver.Unarchive, given the archive, the target and the tree *)
  Unarchive : string → path → Files → Files * option error;
  (* the random part of the name os.MkdirTemp picks *)
  tempSuffix : Files → path → string;
}.

Definition lastUpdateCheckFileName : string := "last_update_check".

Record Config : Type := mkConfig {
  DBRootDir : path;
  ValidateAge : bool;
  ValidateChecksum : bool;
  MaxAllowedBuiltAge : Z;
  UpdateCheckMaxFrequency : Z;
}.

(** The receiver of the methods; its [fs] field is the world's tree. *)
Record curator : Type := mkCurator {
  client : Client;
  config : Config;
}.

Section Curator.

Variable env : Env.

Definition Itoa (n : Z) : string := pretty n.

Definition DefaultConfig : Config :=
  {| DBRootDir := CacheHome env ++ ["grype"; "db"];
     ValidateAge := true;
     ValidateChecksum := true;
     MaxAllowedBuiltAge := time.Hour * 24 * 5;
     UpdateCheckMaxFrequency := 2 * time.Hour |}.

Definition DBDirectoryPath (c : Config) : path :=
  DBRootDir c ++ [Itoa (ModelVersion env)].

Definition DBFilePath (c : Config) : path :=
  DBDirectoryPath c ++ [VulnerabilityDBFileName env].

Definition NewCurator (cfg : Config) (downloader : Client) : curator :=
  {| client := downloader; config := cfg |}.

(** *** Collaborators as operations on the world *)

Definition db_NewReader (dir : path) : M (res db.Reader) := λ w,
  (NewReader env dir (files (disk w)), add_event (EvNewReader dir) w).

Definition client_IsUpdateAvailable (c : curator) (current : option db.Description)
  : M (option distribution.Archive * option error) := λ w,
  (IsUpdateAvailable (client c) current, add_event (EvIsUpdateAvailable current) w).

Definition client_Download (c : curator) (a : distribution.Archive) (dest : path)
  : M (res path) := λ w,
  let r := Download (client c) a dest (files (disk w)) in
  (r.2, set_files r.1 (add_event (EvDownload a dest) w)).

Definition archiver_Unarchive (archive : string) (dest : path) : M (option error) := λ w,
  let r := Unarchive env archive dest (files (disk w)) in
  (r.2, set_files r.1 (add_event (EvUnarchive archive dest) w)).

(** [os.MkdirTemp(dir, pattern)] for a non-empty [dir]; a name that is
    taken is an error (the retries are left out). *)
Definition MkdirTemp (dir : path) (pattern : string) : M (res path) := λ w,
  let w := add_event (EvFs OpMkdirTemp dir) w in
  if faults (disk w) OpMkdirTemp dir then (Err (ErrOs OpMkdirTemp dir), w)
  else if negb (is_dir (files (disk w)) dir) then (Err (ErrNotExist dir), w)
  else
    let p := dir ++ [pattern +:+ tempSuffix env (files (disk w)) dir] in
    match node_at (files (disk w)) p with
    | Some _ => (Err (ErrOs OpMkdirTemp p), w)
    | None => (Ok p, set_files (<[p := Dir]> (files (disk w))) w)
    end.

(** Modelled from the spec: [file.Exists] of internal/file is not among
    the sources. The descriptor store treats an absent sidecar file as
    "not found, no error": the path is statted, a not-exist answer is
    [false] without error, any other failure of the stat is an error, and
    the sidecar is there when the node is a file. *)
Definition file_Exists (p : path) : R (res bool) :=
  st ← Stat p;
  match st with
  | Err e => if IsNotExist (Some e) then mret (Ok false) else mret (Err e)
  | Ok Dir => mret (Ok false)
  | Ok (File _) => mret (Ok true)
  end.

(** Modelled from the spec: [file.ValidateByHash] of internal/file is not
    among the sources. It recomputes the content hash of the payload file
    and compares it to the descriptor's checksum, giving back the verdict
    and the recomputed digest; a payload that cannot be opened or read
    gives the error the caller tests for first. *)
Definition file_ValidateByHash (p : path) (hashStr : string) : R (res (bool * string)) :=
  f ← Open p;
  match f with
  | Err e => mret (Err e)
  | Ok h =>
    match read_all p h with
    | Err e => mret (Err e)
    | Ok s => mret (Ok (String.eqb (hashOf env s) hashStr, hashOf env s))
    end
  end.

Definition Decode (p : path) (f : node) : res db.Description :=
  match read_all p f with
  | Err e => Err e
  | Ok s => jsonDecode env s
  end.

Definition Fscanf (p : path) (fh : node) : res string :=
  match read_all p fh with
  | Err e => Err e
  | Ok s => Fscan env s
  end.

(** *** The monitor *)

Definition newMonitor : M unit := emit EvPublish.
Definition mon_Set (label : string) : M unit := emit (EvStage label).
Definition downloadProgress_SetCompleted : M unit := emit EvDownloadCompleted.
Definition importProgress_SetCompleted : M unit := emit EvImportCompleted.
Definition mon_SetCompleted : M unit :=
  _ ← downloadProgress_SetCompleted; importProgress_SetCompleted.

(** *** curator.go *)

Definition readDatabaseDescription (dir : path) : R (res (option db.Description)) :=
  let metadataFilePath := dir ++ [DescriptionFileName env] in
  ex ← file_Exists metadataFilePath;
  match ex with
  | Err e => mret (Err (ErrCheckExists metadataFilePath e))
  | Ok false => mret (Ok None)
  | Ok true =>
    f ← Open metadataFilePath;
    match f with
    | Err e => mret (Err (ErrOpenMetadata metadataFilePath e))
    | Ok f =>
      match Decode metadataFilePath f with
      | Err e => mret (Err (ErrDecodeMetadata metadataFilePath e))
      | Ok m => mret (Ok (Some m))
      end
    end
  end.

Definition validateIntegrity (c : curator) (dbDirPath : path) : R (res db.Description) :=
  metadata ← readDatabaseDescription dbDirPath;
  match metadata with
  | Err e => mret (Err (ErrParseMetadata dbDirPath e))
  | Ok None => mret (Err (ErrMetadataNotFound dbDirPath))
  | Ok (Some metadata) =>
    checked ←
      (if ValidateChecksum (config c) then
         let dbPath := dbDirPath ++ [VulnerabilityDBFileName env] in
         v ← file_ValidateByHash dbPath (db.Checksum metadata);
         match v with
         | Err e => mret (Some e)
         | Ok (valid, actualHash) =>
           if negb valid
           then mret (Some (ErrBadChecksum dbPath (db.Checksum metadata) actualHash))
           else mret None
         end
       else mret None);
    match checked with
    | Some e => mret (Err e)
    | None =>
      let '(gotModel, ok) := Model env (db.SchemaVersion metadata) in
      if negb ok || negb (gotModel =? ModelVersion env)
      then mret (Err (ErrUnsupportedVersion gotModel (ModelVersion env)))
      else mret (Ok metadata)
    end
  end.

Definition ensureNotStale (c : curator) (m : option db.Description) : R (option error) :=
  match m with
  | None => mret (Some ErrNoMetadata)
  | Some m =>
    if negb (ValidateAge (config c)) then mret None
    else
      now ← Now;
      let now := time.UTC now in
      let age := time.Sub now (db.Built m) in
      if age >? MaxAllowedBuiltAge (config c)
      then mret (Some (ErrStale age (MaxAllowedBuiltAge (config c))))
      else mret None
  end.

Definition validate (c : curator) : R (option error) :=
  metadata ← validateIntegrity c (DBDirectoryPath (config c));
  match metadata with
  | Err e => mret (Some e)
  | Ok metadata => ensureNotStale c (Some metadata)
  end.

Definition Reader (c : curator) : M (option db.Reader * option error) :=
  s ← db_NewReader (DBDirectoryPath (config c));
  match s with
  | Err e => mret (None, Some e)
  | Ok s => v ← reading (validate c); mret (Some s, v)
  end.

Definition Status (c : curator) : R db.Status :=
  let dbDir := DBDirectoryPath (config c) in
  d ← readDatabaseDescription dbDir;
  match d with
  | Err e => mret (db.mkStatus time.zero "" [] "" (Some (ErrStatusParse dbDir e)))
  | Ok None => mret (db.mkStatus time.zero "" [] "" (Some (ErrStatusNotFound dbDir)))
  | Ok (Some d) =>
    v ← validate c;
    mret (db.mkStatus (db.Built d) (db.SchemaVersion d) dbDir (db.Checksum d) v)
  end.

Definition Delete (c : curator) : M (option error) :=
  RemoveAll (DBDirectoryPath (config c)).

Definition durationSinceUpdateCheck (c : curator) : M (res (option Z)) :=
  let filePath := DBDirectoryPath (config c) ++ [lastUpdateCheckFileName] in
  st ← reading (Stat filePath);
  if IsNotExist (err_of st) then
    _ ← log LvlTrace "first-run of DB update"; mret (Ok None)
  else
    fh ← reading (Open filePath);
    match fh with
    | Err e => mret (Err (ErrReadLastCheck e))
    | Ok fh =>
      match Fscanf filePath fh with
      | Err e => mret (Err (ErrReadLastCheck e))
      | Ok lastCheckStr =>
        match ParseRFC3339 env lastCheckStr with
        | Err e => mret (Err (ErrParseLastCheck e))
        | Ok lastCheck =>
          if time.IsZero lastCheck then mret (Err ErrEmptyLastCheck)
          else now ← reading Now; mret (Ok (Some (time.Sub now lastCheck)))
        end
      end
    end.

Definition isUpdateCheckAllowed (c : curator) : M bool :=
  if UpdateCheckMaxFrequency (config c) =? 0 then
    _ ← log LvlTrace "no max-frequency set for update check"; mret true
  else
    r ← durationSinceUpdateCheck c;
    match r with
    | Err e =>
      _ ← log LvlTrace "unable to determine if update check is allowed"; mret true
    | Ok None => mret true
    | Ok (Some elapsed) => mret (elapsed >? UpdateCheckMaxFrequency (config c))
    end.

Definition setLastSuccessfulUpdateCheck (c : curator) : M unit :=
  let filePath := DBDirectoryPath (config c) ++ [lastUpdateCheckFileName] in
  fh ← OpenFileCreate filePath;
  match fh with
  | Err e => log LvlTrace "unable to write last update check timestamp"
  | Ok fh =>
    now ← reading Now;
    _ ← Fprintf fh (FormatRFC3339 env (time.UTC now));
    mret tt
  end.

Definition removeAllOrLog (dir : path) : M unit :=
  r ← RemoveAll dir;
  match r with
  | Some e => log LvlWarn "failed to remove path"
  | None => mret tt
  end.

Definition activate (c : curator) (dbDirPath : path) : M (option error) :=
  defer importProgress_SetCompleted (
    _ ← mon_Set "validating DB integrity";
    v ← reading (validateIntegrity c dbDirPath);
    match v with
    | Err e => mret (Some e)
    | Ok _ =>
      _ ← mon_Set "activating";
      let dbDir := DBDirectoryPath (config c) in
      st ← reading (Stat dbDir);
      purged ← (if negb (IsNotExist (err_of st)) then Delete c else mret None);
      match purged with
      | Some e => mret (Some (ErrPurge e))
      | None => Rename dbDirPath dbDir
      end
    end).

Definition Update (c : curator) : M (bool * option error) :=
  allowed ← isUpdateCheckAllowed c;
  if negb allowed then mret (false, None)
  else
    _ ← newMonitor;
    defer mon_SetCompleted (
      current ← reading (readDatabaseDescription (DBDirectoryPath (config c)));
      match current with
      | Err e => mret (false, Some (ErrReadCurrent e))
      | Ok current =>
        _ ← mon_Set "checking for update";
        '(update, checkErr) ← client_IsUpdateAvailable c current;
        _ ← match checkErr with
            | Some _ =>
              _ ← log LvlWarn "unable to check for vulnerability database update";
              log LvlDebug "check for vulnerability update failed"
            | None => mret tt
            end;
        match update with
        | None =>
          _ ← match checkErr with
              | None => setLastSuccessfulUpdateCheck c
              | Some _ => mret tt
              end;
          _ ← mon_Set "no update available";
          mret (false, None)
        | Some update =>
          _ ← log LvlInfo "downloading new vulnerability DB";
          _ ← mon_Set "downloading";
          dest ← client_Download c update (parent (DBRootDir (config c)));
          match dest with
          | Err e => mret (false, Some (ErrUpdate e))
          | Ok dest =>
            a ← activate c dest;
            match a with
            | Some e => mret (false, Some (ErrActivate e))
            | None =>
              _ ← setLastSuccessfulUpdateCheck c;
              match current with
              | Some _ => _ ← log LvlInfo "updated vulnerability DB"; mret (true, None)
              | None => _ ← log LvlInfo "downloaded new vulnerability DB"; mret (true, None)
              end
            end
          end
        end
      end).

Definition Import (c : curator) (dbArchivePath : string) : M (option error) :=
  _ ← newMonitor;
  _ ← mon_Set "unarchiving";
  defer mon_SetCompleted (
    t ← MkdirTemp (DBRootDir (config c))
          ("tmp-v" +:+ Itoa (ModelVersion env) +:+ "-import");
    match t with
    | Err e => mret (Some (ErrTempDir e))
    | Ok tempDir =>
      u ← archiver_Unarchive dbArchivePath tempDir;
      match u with
      | Some e => mret (Some e)
      | None =>
        _ ← downloadProgress_SetCompleted;
        a ← activate c tempDir;
        match a with
        | Some e => _ ← removeAllOrLog tempDir; mret (Some e)
        | None => mret None
        end
      end
    end).

End Curator.

(** ** Vocabulary of the statements *)

Definition with_faults (f : Op → path → bool) (w : World) : World :=
  {| disk := {| files := files (disk w); clock := clock (disk w); faults := f |};
     trace := trace w |}.

(** The events [new] are what a run from [w] to [w'] added (newest first). *)
Definition events_since (w w' : World) (new : list event) : Prop :=
  trace w' = new ++ trace w.

(** Neither directory lies at or below the other. *)
Definition apart (p q : path) : Prop := ¬ p `prefix_of` q ∧ ¬ q `prefix_of` p.

(** Two runs of [m] from related disks give the same result and end in
    related disks. *)
Definition sim {A} (P Q : Disk → Disk → Prop) (m : M A) : Prop :=
  ∀ w1 w2, P (disk w1) (disk w2) →
    (m w1).1 = (m w2).1 ∧ Q (disk (m w1).2) (disk (m w2).2).

Definition anything : Disk → Disk → Prop := λ _ _, True.

Section Vocabulary.

Variable env : Env.

Definition marker_path (c : curator) : path :=
  DBDirectoryPath env (config c) ++ [lastUpdateCheckFileName].

Definition descriptor_path (dir : path) : path := dir ++ [DescriptionFileName env].

Definition payload_path (dir : path) : path := dir ++ [VulnerabilityDBFileName env].

Definition import_pattern : string :=
  "tmp-v" +:+ Itoa (ModelVersion env) +:+ "-import".

(** The marker file is absent: the stat answers not-exist. *)
Definition marker_absent (c : curator) (d : Disk) : Prop :=
  IsNotExist (err_of (Stat (marker_path c) d)) = true.

(** The marker holds the timestamp [t]: the stat does not answer
    not-exist, the file opens and reads, its token parses as RFC3339 and
    the instant is not the zero time. *)
Definition marker_holds (c : curator) (d : Disk) (t : Z) : Prop :=
  IsNotExist (err_of (Stat (marker_path c) d)) = false ∧
  ∃ fh s, Open (marker_path c) d = Ok fh ∧
    Fscanf env (marker_path c) fh = Ok s ∧
    ParseRFC3339 env s = Ok t ∧ time.IsZero t = false.

(** The marker is there but gives no timestamp: it cannot be opened, or
    read, or parsed, or it parses to the zero time. *)
Definition marker_unreadable (c : curator) (d : Disk) : Prop :=
  IsNotExist (err_of (Stat (marker_path c) d)) = false ∧
  ((∃ e, Open (marker_path c) d = Err e) ∨
   ∃ fh, Open (marker_path c) d = Ok fh ∧
     ((∃ e, Fscanf env (marker_path c) fh = Err e) ∨
      ∃ s, Fscanf env (marker_path c) fh = Ok s ∧
        ((∃ e, ParseRFC3339 env s = Err e) ∨
         ∃ t, ParseRFC3339 env s = Ok t ∧ time.IsZero t = true))).

(** Opening the marker for writing: the first step of recording a check. *)
Definition marker_write (c : curator) : event := EvFs OpCreate (marker_path c).

Definition recorded (c : curator) (w w' : World) : Prop :=
  ∃ new, events_since w w' new ∧ marker_write c ∈ new.

Definition not_recorded (c : curator) (w w' : World) : Prop :=
  ∃ new, events_since w w' new ∧ marker_write c ∉ new.

(** Checksum validation lets the descriptor [m] of [dir] through. *)
Definition checksum_passes (c : curator) (dir : path) (m : db.Description) (d : Disk)
  : Prop :=
  ValidateChecksum (config c) = false ∨
  ∃ actual,
    file_ValidateByHash env (payload_path dir) (db.Checksum m) d = Ok (true, actual).

(** The descriptor file of [dir] is absent: the stat answers not-exist. *)
Definition descriptor_absent (dir : path) (d : Disk) : Prop :=
  IsNotExist (err_of (Stat (descriptor_path dir) d)) = true.

(** Nothing is installed: no entry at or below the database directory,
    no regular file in the place of a directory leading to it, and
    stats work. *)
Definition fresh_root (c : curator) (d : Disk) : Prop :=
  under (DBDirectoryPath env (config c)) (files d) = ∅ ∧
  no_file_above (files d) (DBDirectoryPath env (config c)) = true ∧
  ∀ p, faults d OpStat p = false.

(** The oracles [f] and [f'] differ at most on creating and writing the
    marker file. *)
Definition differ_at_marker_writes (c : curator) (f f' : Op → path → bool) : Prop :=
  ∀ o p, f o p ≠ f' o p → (o = OpCreate ∨ o = OpWrite) ∧ p = marker_path c.

Definition agree (c : curator) (d1 d2 : Disk) : Prop :=
  files d1 = files d2 ∧ clock d1 = clock d2 ∧
  differ_at_marker_writes c (faults d1) (faults d2).

End Vocabulary.

(** ** A concrete installation

    Stand-ins for the collaborators and a few worlds, on which the
    statements below are exercised. *)
Module Scenario.

(** 2026-10-30T10:00:00Z. *)
Definition now : Z := 1793354400 * time.Second.
Definition Day : Z := 24 * time.Hour.

Definition fresh : db.Description :=
  {| db.SchemaVersion := "v6.0.0"; db.Built := now - Day;
     db.Checksum := "xxh64:payload-new" |}.

Definition old : db.Description :=
  {| db.SchemaVersion := "v6.0.0"; db.Built := now - 10 * Day;
     db.Checksum := "xxh64:payload-old" |}.

Definition legacy : db.Description :=
  {| db.SchemaVersion := "v5.0.0"; db.Built := now - Day;
     db.Checksum := "xxh64:payload-v5" |}.

Definition decode (s : string) : res db.Description :=
  if String.eqb s "fresh.json" then Ok fresh
  else if String.eqb s "old.json" then Ok old
  else if String.eqb s "legacy.json" then Ok legacy
  else Err (ErrExternal "invalid character looking for beginning of value").

Definition model (v : string) : Z * bool :=
  if String.eqb v "v6.0.0" then (6, true)
  else if String.eqb v "v5.0.0" then (5, true)
  else (0, false).

Definition scan (s : string) : res string :=
  if String.eqb s "" then Err (ErrExternal "unexpected EOF") else Ok s.

Definition parse (s : string) : res Z :=
  if String.eqb s "2026-10-30T10:00:00Z" then Ok now
  else if String.eqb s "2026-10-30T09:30:00Z" then Ok (now - 30 * time.Minute)
  else if String.eqb s "2026-10-30T07:00:00Z" then Ok (now - 3 * time.Hour)
  else if String.eqb s "0001-01-01T00:00:00Z" then Ok time.zero
  else Err (ErrExternal "cannot parse as RFC3339").

Definition format (t : Z) : string :=
  if t =? now then "2026-10-30T10:00:00Z"
  else if t =? now - 30 * time.Minute then "2026-10-30T09:30:00Z"
  else if t =? now - 3 * time.Hour then "2026-10-30T07:00:00Z"
  else "0001-01-01T00:00:00Z".

Definition openReader (dir : path) (fs : Files) : res db.Reader :=
  match fs !! (dir ++ ["vulnerability.db"]) with
  | Some (File _) => Ok (db.mkReader dir)
  | _ => Err (ErrExternal "unable to open database")
  end.

Definition unpack (archive : string) (dest : path) (fs : Files) : Files * option error :=
  if String.eqb archive "bundle.tar" then
    (<[dest ++ ["vulnerability.db"] := File "payload-new"]>
       (<[dest ++ ["description.json"] := File "fresh.json"]> fs), None)
  else if String.eqb archive "tampered.tar" then
    (<[dest ++ ["vulnerability.db"] := File "payload-tampered"]>
       (<[dest ++ ["description.json"] := File "fresh.json"]> fs), None)
  else (fs, Some (ErrExternal "format unrecognized by filename")).

Definition env : Env :=
  {| ModelVersion := 6;
     VulnerabilityDBFileName := "vulnerability.db";
     DescriptionFileName := "description.json";
     CacheHome := ["home"; "user"; ".cache"];
     Model := model;
     NewReader := openReader;
     jsonDecode := decode;
     hashOf := λ s, "xxh64:" +:+ s;
     Fscan := scan;
     ParseRFC3339 := parse;
     FormatRFC3339 := format;
     Unarchive := unpack;
     tempSuffix := λ _ _, "123456" |}.

Definition cfg : Config := DefaultConfig env.
Definition root : path := DBRootDir cfg.
Definition active : path := DBDirectoryPath env cfg.
Definition marker : path := active ++ [lastUpdateCheckFileName].

Definition candidate : distribution.Archive :=
  {| distribution.Description := fresh; distribution.Path := "db_v6.tar.zst" |}.

(** A download lays the staged directory out below the given parent. *)
Definition stage (payload : string) (destParent : path) (fs : Files) : Files * res path :=
  let dest := destParent ++ ["grype-db-download42"] in
  (<[dest ++ ["vulnerability.db"] := File payload]>
     (<[dest ++ ["description.json"] := File "fresh.json"]>
        (<[dest := Dir]> fs)), Ok dest).

Definition upToDate : Client :=
  {| IsUpdateAvailable := λ _, (None, None);
     Download := λ _ _ fs, (fs, Err (ErrExternal "nothing to download")) |}.

Definition offline : Client :=
  {| IsUpdateAvailable := λ _, (None, Some (ErrExternal "network unreachable"));
     Download := λ _ _ fs, (fs, Err (ErrExternal "network unreachable")) |}.

Definition newer : Client :=
  {| IsUpdateAvailable := λ _, (Some candidate, None);
     Download := λ _, stage "payload-new" |}.

Definition tampered : Client :=
  {| IsUpdateAvailable := λ _, (Some candidate, None);
     Download := λ _, stage "payload-tampered" |}.

Definition unreachable : Client :=
  {| IsUpdateAvailable := λ _, (Some candidate, None);
     Download := λ _ _ fs, (fs, Err (ErrExternal "connection reset")) |}.

Definition no_faults : Op → path → bool := λ _ _, false.

Definition marker_write_faults : Op → path → bool := λ o p,
  bool_decide (o = OpCreate) && bool_decide (p = marker).

Definition marker_print_faults : Op → path → bool := λ o p,
  bool_decide (o = OpWrite) && bool_decide (p = marker).

Definition dirs : Files :=
  list_to_map
    [ (["home"], Dir); (["home"; "user"], Dir); (["home"; "user"; ".cache"], Dir);
      (["home"; "user"; ".cache"; "grype"], Dir); (root, Dir) ].

Definition install (descriptor payload : string) (fs : Files) : Files :=
  <[active ++ ["vulnerability.db"] := File payload]>
    (<[active ++ ["description.json"] := File descriptor]>
       (<[active := Dir]> fs)).

Definition world (fs : Files) : World :=
  {| disk := {| files := fs; clock := now; faults := no_faults |}; trace := [] |}.

(** Nothing installed yet. *)
Definition first_run : World := world dirs.

(** A supported database built yesterday, never checked for updates. *)
Definition installed : World := world (install "fresh.json" "payload-new" dirs).

(** A supported database built ten days ago. *)
Definition outdated : World := world (install "old.json" "payload-old" dirs).

(** The same, with an update check recorded half an hour ago. *)
Definition checked_recently : World :=
  world (<[marker := File "2026-10-30T09:30:00Z"]> (install "old.json" "payload-old" dirs)).

(** The same, with an update check recorded three hours ago. *)
Definition checked_long_ago : World :=
  world (<[marker := File "2026-10-30T07:00:00Z"]> (install "old.json" "payload-old" dirs)).

(** A database whose payload file is gone. *)
Definition payload_missing : World :=
  world (<[active ++ ["description.json"] := File "fresh.json"]> (<[active := Dir]> dirs)).

(** The installed database with an unreadable marker. *)
Definition marker_garbled : World :=
  world (<[marker := File "last tuesday"]> (install "fresh.json" "payload-new" dirs)).

(** A database of the previous model. *)
Definition legacy_installed : World :=
  world (install "legacy.json" "payload-v5" dirs).

Definition staging : path := parent root ++ ["grype-db-download42"].

(** The outdated database next to a downloaded directory whose payload
    does not match its descriptor. *)
Definition staged_tampered : World :=
  world (stage "payload-tampered" (parent root)
           (install "old.json" "payload-old" dirs)).1.

Definition curator_of (cl : Client) : curator := NewCurator cfg cl.

Definition unthrottled : curator :=
  NewCurator
    {| DBRootDir := root; ValidateAge := true; ValidateChecksum := true;
       MaxAllowedBuiltAge := 5 * Day; UpdateCheckMaxFrequency := 0 |} upToDate.

Definition age_unchecked : curator :=
  NewCurator
    {| DBRootDir := root; ValidateAge := false; ValidateChecksum := true;
       MaxAllowedBuiltAge := 5 * Day; UpdateCheckMaxFrequency := 2 * time.Hour |}
    upToDate.

Definition built_at (t : Z) : db.Description :=
  {| db.SchemaVersion := "v6.0.0"; db.Built := t; db.Checksum := "xxh64:payload-new" |}.

(** The largest maximum age a configuration can hold. *)
Definition never_stale : curator :=
  NewCurator
    {| DBRootDir := root; ValidateAge := true; ValidateChecksum := true;
       MaxAllowedBuiltAge := time.maxDuration; UpdateCheckMaxFrequency := 2 * time.Hour |}
    upToDate.

(** A database whose descriptor is not JSON. *)
Definition descriptor_garbled : World :=
  world (install "<html>" "payload-new" dirs).

Definition import_dir : path := root ++ ["tmp-v6-import123456"].

End Scenario.

(** ** Vocabulary of the further properties *)

(** Every event a run of [m] adds satisfies [P]. *)
Definition emits_only {A} (P : event → Prop) (m : M A) : Prop :=
  ∀ w, ∃ t, events_since w (m w).2 t ∧ ∀ e, e ∈ t → P e.

(** A call that changes the tree. *)
Definition is_fs_call (e : event) : Prop := ∃ o p, e = EvFs o p.

Section FurtherVocabulary.

Variable env : Env.

(** The calls on the tree that [activate] may issue: removing the active
    directory and renaming the staged one. *)
Definition activate_call (c : curator) (staged : path) (e : event) : Prop :=
  is_fs_call e →
  e = EvFs OpRemoveAll (DBDirectoryPath env (config c)) ∨ e = EvFs OpRename staged.

(** Stat and open work on the descriptor and the payload of [dir]. *)
Definition readable (dir : path) (d : Disk) : Prop :=
  faults d OpStat (descriptor_path env dir) = false ∧
  faults d OpOpen (descriptor_path env dir) = false ∧
  faults d OpOpen (payload_path env dir) = false.

(** The marker can be created and written: the database directory is
    there, the marker path holds no directory, and the two calls work. *)
Definition marker_writable (c : curator) (d : Disk) : Prop :=
  is_dir (files d) (DBDirectoryPath env (config c)) = true ∧
  node_at (files d) (marker_path env c) ≠ Some Dir ∧
  faults d OpCreate (marker_path env c) = false ∧
  faults d OpWrite (marker_path env c) = false.

Definition marker_readable (c : curator) (d : Disk) : Prop :=
  faults d OpStat (marker_path env c) = false ∧
  faults d OpOpen (marker_path env c) = false.

(** Formatting the instant [t0], scanning and parsing it back gives [t],
    which is not the zero time. *)
Definition reads_back (t0 t : Z) : Prop :=
  ∃ s, Fscan env (FormatRFC3339 env t0) = Ok s ∧
       ParseRFC3339 env s = Ok t ∧ time.IsZero t = false.

(** The marker is a file name of its own in the database directory. *)
Definition marker_name_distinct : Prop :=
  DescriptionFileName env ≠ lastUpdateCheckFileName ∧
  VulnerabilityDBFileName env ≠ lastUpdateCheckFileName.

End FurtherVocabulary.

(** Stage labels, completion signals and log lines: what the curator
    reports while it works, apart from publishing the progress object. *)
Definition progress_or_log (e : event) : Prop :=
  match e with
  | EvStage _ | EvDownloadCompleted | EvImportCompleted | EvLog _ _ => True
  | _ => False
  end.

Definition asks_client (e : event) : Prop :=
  (∃ current, e = EvIsUpdateAvailable current) ∨ ∃ a p, e = EvDownload a p.

(** Between [w] and [w'] the progress object was published once, and the
    two completion signals are the last thing that happened. *)
Definition monitor_completed (w w' : World) : Prop :=
  ∃ before after,
    events_since w w'
      (EvImportCompleted :: EvDownloadCompleted :: after ++ EvPublish :: before) ∧
    (EvPublish ∉ after) ∧ (EvPublish ∉ before).

Section CallVocabulary.
Variable env : Env.

(** The calls on the tree that [Update] may issue: those of [activate]
    on whatever directory the download gave, and creating and writing
    the marker. It unpacks no archive. *)
Definition update_call (c : curator) (e : event) : Prop :=
  (is_fs_call e →
     e = EvFs OpRemoveAll (DBDirectoryPath env (config c)) ∨
     (∃ dest, e = EvFs OpRename dest) ∨
     e = EvFs OpCreate (marker_path env c) ∨
     e = EvFs OpWrite (marker_path env c)) ∧
  ∀ a p, e ≠ EvUnarchive a p.


End CallVocabulary.
(** ** More installations *)
Module Installations.

Import Scenario.

(** The installed database next to one of the previous model. *)
Definition both_models : World :=
  world (<[root ++ ["5"; "vulnerability.db"] := File "payload-v5"]>
           (<[root ++ ["5"; "description.json"] := File "legacy.json"]>
              (<[root ++ ["5"] := Dir]> (install "fresh.json" "payload-new" dirs)))).

(** The outdated database next to a sound download. *)
Definition staged_fresh : World :=
  world (stage "payload-new" (parent root) (install "old.json" "payload-old" dirs)).1.

(** The same, with an update check recorded half an hour ago. *)
Definition staged_after_check : World :=
  world (stage "payload-new" (parent root) (files (disk checked_recently))).1.

(** A sound download of a database built ten days ago, nothing
    installed. *)
Definition staged_old : World :=
  world (<[staging ++ ["vulnerability.db"] := File "payload-old"]>
           (<[staging ++ ["description.json"] := File "old.json"]>
              (<[staging := Dir]> dirs))).

(** An empty tree: the root directory is missing. *)
Definition no_root : World := world ∅.

(** A client that offers a candidate and reports an error as well. *)
Definition both_answers : Client :=
  {| IsUpdateAvailable := λ _, (Some candidate, Some (ErrExternal "listing is outdated"));
     Download := λ _, stage "payload-new" |}.

(** The world [w] some time [dt] later. *)
Definition later (dt : Z) (w : World) : World :=
  {| disk := {| files := files (disk w); clock := clock (disk w) + dt;
                faults := faults (disk w) |};
     trace := trace w |}.

End Installations.

(** * Properties *)

(** ** Proof steps used throughout *)

Ltac unfold_M :=
  unfold defer, log, mon_SetCompleted, mon_Set, newMonitor,
    downloadProgress_SetCompleted, importProgress_SetCompleted in *;
  unfold reading, emit, Now in *;
  unfold mbind, mret, M_bind, M_ret, R_bind, R_ret in *.

Tactic Notation "reduce" :=
  cbv beta iota zeta;
  cbn [disk trace files clock faults add_event set_files fst snd negb IsNotExist err_of].

Tactic Notation "reduce" "in" hyp(H) :=
  cbv beta iota zeta in H;
  cbn [disk trace files clock faults add_event set_files fst snd negb IsNotExist err_of] in H.

Ltac split_cases := repeat (case_match; simplify_eq/=; try done).

Ltac not_among :=
  let Hin := fresh "Hin" in
  intros Hin;
  repeat (apply elem_of_cons in Hin as [Hin|Hin]; [discriminate Hin|]);
  by apply elem_of_nil in Hin.

Ltac solve_events :=
  first
    [ exists []; split; [reflexivity|not_among]
    | eexists [_]; split; [reflexivity|not_among]
    | eexists [_; _]; split; [reflexivity|not_among]
    | eexists [_; _; _]; split; [reflexivity|not_among]
    | eexists [_; _; _; _]; split; [reflexivity|not_among]
    | eexists [_; _; _; _; _]; split; [reflexivity|not_among] ].

Ltac pack_events := rewrite ?app_comm_cons, ?app_assoc; reflexivity.

Ltac among := rewrite ?elem_of_app, ?elem_of_cons; intuition congruence.

Ltac nowhere :=
  rewrite ?not_elem_of_app, ?not_elem_of_cons; repeat split;
  first [assumption | apply not_elem_of_nil | discriminate].

(** ** Runs from related disks *)

Section Sim.

Context {A B : Type}.
Implicit Types P Q S : Disk → Disk → Prop.

Lemma sim_ret P (a : A) : sim P P (mret a).
Proof. by intros w1 w2 H. Qed.

Lemma sim_bind P Q S (m : M A) (k : A → M B) :
  sim P Q m → (∀ a, sim Q S (k a)) → sim P S (m ≫= k).
Proof.
  intros Hm Hk w1 w2 H. unfold mbind, M_bind.
  destruct (Hm w1 w2 H) as [H1 H2].
  destruct (m w1) as [a1 w1'], (m w2) as [a2 w2']. simplify_eq/=.
  by apply Hk.
Qed.

Lemma sim_weaken P Q S (m : M A) :
  sim P Q m → (∀ d1 d2, Q d1 d2 → S d1 d2) → sim P S m.
Proof. intros Hm HQ w1 w2 H. destruct (Hm w1 w2 H). auto. Qed.

Lemma sim_reading P (r : R A) :
  (∀ d1 d2, P d1 d2 → r d1 = r d2) → sim P P (reading r).
Proof. intros Hr w1 w2 H. split; [by apply Hr|done]. Qed.

End Sim.

Lemma sim_emit P e : sim P P (emit e).
Proof. by intros w1 w2 H. Qed.

Lemma sim_defer {A} P Q (d : M unit) (body : M A) :
  sim P Q body → sim Q Q d → sim P Q (defer d body).
Proof.
  intros Hb Hd. unfold defer. eapply sim_bind; [exact Hb|]. intros a.
  eapply sim_bind; [exact Hd|]. intros _. apply sim_ret.
Qed.

(** ** The file tree *)

Lemma under_outside_same (p : path) (fs : Files) : under p (outside p fs) = ∅.
Proof.
  unfold under, outside. apply map_eq. intros k. rewrite lookup_empty.
  apply map_lookup_filter_None. right. intros x Hx Hp.
  apply map_lookup_filter_Some in Hx as [_ Hn]. by apply Hn.
Qed.

Lemma under_outside_apart (p q : path) (fs : Files) :
  apart p q → under p (outside q fs) = under p fs.
Proof.
  intros [Hpq Hqp]. unfold under, outside. apply map_eq. intros k.
  destruct (filter (λ kv : path * node, p `prefix_of` kv.1) fs !! k) as [x|] eqn:Hk.
  - apply map_lookup_filter_Some in Hk as [Hk Hp]. cbn in Hp.
    apply map_lookup_filter_Some. split; [|done].
    apply map_lookup_filter_Some. split; [done|]. cbn. intros Hq.
    destruct (prefix_weak_total _ _ _ Hp Hq); done.
  - apply map_lookup_filter_None in Hk. apply map_lookup_filter_None.
    destruct Hk as [Hk|Hk].
    + left. apply map_lookup_filter_None. by left.
    + right. intros x Hx. apply map_lookup_filter_Some in Hx as [Hx _]. by apply Hk.
Qed.

Lemma under_empty_lookup (p : path) (x : string) (fs : Files) :
  under p fs = ∅ → node_at fs (p ++ [x]) = None.
Proof.
  intros Hu. unfold node_at. destruct (p ++ [x]) as [|y k] eqn:Hk.
  { by destruct p. }
  rewrite <- Hk. destruct (fs !! (p ++ [x])) as [n|] eqn:Hn; [|done].
  exfalso. eapply (map_filter_empty_not_lookup _ fs (p ++ [x]) n); [exact Hu| |exact Hn].
  cbn. by apply prefix_app_r.
Qed.

Section Properties.

Variable env : Env.

(** ** The throttle *)

Lemma marker_cases c d :
  marker_absent env c d ∨ marker_unreadable env c d ∨ ∃ t, marker_holds env c d t.
Proof.
  unfold marker_absent, marker_unreadable, marker_holds.
  destruct (IsNotExist _) eqn:Hst; [by left|right].
  destruct (Open _ d) as [fh|e] eqn:Ho; [|left; eauto 10].
  destruct (Fscanf env (marker_path env c) fh) as [s|e] eqn:Hs; [|left; eauto 10].
  destruct (ParseRFC3339 env s) as [t|e] eqn:Hp; [|left; eauto 12].
  destruct (time.IsZero t) eqn:Hz; [left; eauto 15|right; eauto 10].
Qed.

Lemma durationSince_absent c w :
  marker_absent env c (disk w) →
  durationSinceUpdateCheck env c w =
    (Ok None, add_event (EvLog LvlTrace "first-run of DB update") w).
Proof.
  unfold marker_absent, marker_path, durationSinceUpdateCheck. unfold_M. reduce.
  intros ->. reflexivity.
Qed.

Lemma durationSince_unreadable c w :
  marker_unreadable env c (disk w) → ∃ e, durationSinceUpdateCheck env c w = (Err e, w).
Proof.
  unfold marker_unreadable, marker_path, durationSinceUpdateCheck. unfold_M. reduce.
  intros [-> H]. reduce.
  destruct H as [[e ->]|(fh & -> & H)]; [eauto|].
  destruct H as [[e ->]|(s & -> & H)]; [eauto|].
  destruct H as [[e ->]|(t & -> & ->)]; eauto.
Qed.

Lemma durationSince_holds c w t :
  marker_holds env c (disk w) t →
  durationSinceUpdateCheck env c w = (Ok (Some (time.Sub (clock (disk w)) t)), w).
Proof.
  unfold marker_holds, marker_path, durationSinceUpdateCheck. unfold_M. reduce.
  intros [-> (fh & s & -> & -> & -> & ->)]. reflexivity.
Qed.

Lemma isUpdateCheckAllowed_absent c w :
  marker_absent env c (disk w) → (isUpdateCheckAllowed env c w).1 = true.
Proof.
  intros Ha. unfold isUpdateCheckAllowed. unfold mbind, M_bind.
  destruct (UpdateCheckMaxFrequency (config c) =? 0); [done|].
  by rewrite (durationSince_absent _ _ Ha).
Qed.

Lemma isUpdateCheckAllowed_disk c w :
  disk (isUpdateCheckAllowed env c w).2 = disk w.
Proof.
  unfold isUpdateCheckAllowed, durationSinceUpdateCheck. unfold_M. reduce.
  split_cases.
Qed.

Lemma isUpdateCheckAllowed_denied c w :
  (isUpdateCheckAllowed env c w).1 = false → (isUpdateCheckAllowed env c w).2 = w.
Proof.
  unfold isUpdateCheckAllowed, durationSinceUpdateCheck. unfold_M. reduce.
  split_cases.
Qed.

Lemma isUpdateCheckAllowed_trace c w :
  ∃ t, events_since w (isUpdateCheckAllowed env c w).2 t ∧ marker_write env c ∉ t.
Proof.
  unfold events_since, isUpdateCheckAllowed, durationSinceUpdateCheck. unfold_M. reduce.
  repeat (case_match; simplify_eq/=); solve_events.
Qed.

(** C3. [isUpdateCheckAllowed] answers true when the maximum frequency is
    zero, when the marker file is absent, and when the marker is there
    but cannot be read or parsed; when the marker holds a timestamp and
    the frequency is not zero it answers true exactly when the time
    elapsed since that timestamp is strictly greater than the frequency.
    These cases cover every state of the marker. *)
Theorem isUpdateCheckAllowed_spec (c : curator) (w : World) :
  let freq := UpdateCheckMaxFrequency (config c) in
  let allowed := (isUpdateCheckAllowed env c w).1 in
  (freq = 0 → allowed = true) ∧
  (marker_absent env c (disk w) → allowed = true) ∧
  (marker_unreadable env c (disk w) → allowed = true) ∧
  (∀ t, freq ≠ 0 → marker_holds env c (disk w) t →
     (allowed = true ↔ time.Sub (clock (disk w)) t > freq)) ∧
  (marker_absent env c (disk w) ∨ marker_unreadable env c (disk w) ∨
   ∃ t, marker_holds env c (disk w) t).
Proof.
  cbv zeta. split; [|split; [|split; [|split]]].
  - intros Hf. unfold isUpdateCheckAllowed. by rewrite Hf.
  - apply isUpdateCheckAllowed_absent.
  - intros Hu. unfold isUpdateCheckAllowed. unfold mbind, M_bind.
    destruct (UpdateCheckMaxFrequency (config c) =? 0); [done|].
    by destruct (durationSince_unreadable _ _ Hu) as [e ->].
  - intros t Hf Ht. unfold isUpdateCheckAllowed. unfold mbind, M_bind.
    destruct (Z.eqb_spec (UpdateCheckMaxFrequency (config c)) 0) as [|_]; [done|].
    rewrite (durationSince_holds _ _ _ Ht). unfold mret, M_ret. reduce. lia.
  - apply marker_cases.
Qed.

(** ** Recording a check, activating *)

Lemma setLast_disk c w1 w2 :
  disk w1 = disk w2 →
  disk (setLastSuccessfulUpdateCheck env c w1).2 =
  disk (setLastSuccessfulUpdateCheck env c w2).2.
Proof.
  destruct w1 as [d t1], w2 as [d2 t2]; cbn; intros <-.
  unfold setLastSuccessfulUpdateCheck, OpenFileCreate, Fprintf. unfold_M. reduce.
  split_cases.
Qed.

Lemma setLast_trace c w :
  ∃ t, events_since w (setLastSuccessfulUpdateCheck env c w).2 (t ++ [marker_write env c]).
Proof.
  unfold events_since, setLastSuccessfulUpdateCheck, OpenFileCreate, Fprintf.
  unfold_M. reduce.
  repeat (case_match; simplify_eq/=); try (by eexists [_]); by eexists [].
Qed.

(** When the database directory is there and the system calls work, the
    marker afterwards holds the current time in RFC3339. *)
Lemma setLast_writes c w :
  is_dir (files (disk w)) (DBDirectoryPath env (config c)) = true →
  node_at (files (disk w)) (marker_path env c) ≠ Some Dir →
  faults (disk w) OpCreate (marker_path env c) = false →
  faults (disk w) OpWrite (marker_path env c) = false →
  files (disk (setLastSuccessfulUpdateCheck env c w).2) !! marker_path env c
    = Some (File (FormatRFC3339 env (clock (disk w)))).
Proof.
  intros Hd Hn Hc Hw.
  assert (parent (marker_path env c) = DBDirectoryPath env (config c)) as Hp
    by apply removelast_last.
  unfold setLastSuccessfulUpdateCheck, OpenFileCreate, Fprintf. unfold_M. reduce.
  fold (marker_path env c). rewrite Hc, Hp, Hd. reduce.
  destruct (node_at (files (disk w)) (marker_path env c)) as [[|s]|]; [done|..];
    reduce; rewrite Hw; reduce; apply lookup_insert_eq.
Qed.

Lemma activate_disk c p w1 w2 :
  disk w1 = disk w2 →
  (activate env c p w1).1 = (activate env c p w2).1 ∧
  disk (activate env c p w1).2 = disk (activate env c p w2).2.
Proof.
  destruct w1 as [d t1], w2 as [d2 t2]; cbn; intros <-.
  unfold activate, Delete, RemoveAll, Rename. unfold_M. reduce.
  split_cases; congruence.
Qed.

Lemma activate_trace c p w :
  ∃ t, events_since w (activate env c p w).2 t ∧ marker_write env c ∉ t.
Proof.
  unfold events_since, activate, Delete, RemoveAll, Rename. unfold_M. reduce.
  repeat (case_match; simplify_eq/=); solve_events.
Qed.

Lemma activate_clock c p w : clock (disk (activate env c p w).2) = clock (disk w).
Proof.
  unfold activate, Delete, RemoveAll, Rename. unfold_M. reduce. split_cases.
Qed.

Lemma activate_faults c p w : faults (disk (activate env c p w).2) = faults (disk w).
Proof.
  unfold activate, Delete, RemoveAll, Rename. unfold_M. reduce. split_cases.
Qed.

(** What recording a check does to the tree when the marker can be
    written: the marker holds the current time, nothing else changes. *)
Lemma setLast_files c w :
  marker_writable env c (disk w) →
  files (disk (setLastSuccessfulUpdateCheck env c w).2)
    = <[marker_path env c := File (FormatRFC3339 env (time.UTC (clock (disk w))))]>
        (files (disk w)).
Proof.
  intros (Hd & Hn & Hc & Hw).
  assert (parent (marker_path env c) = DBDirectoryPath env (config c)) as Hp
    by apply removelast_last.
  unfold setLastSuccessfulUpdateCheck, OpenFileCreate, Fprintf. unfold_M. reduce.
  fold (marker_path env c). rewrite Hc, Hp, Hd. reduce.
  destruct (node_at (files (disk w)) (marker_path env c)) as [[|s]|]; [done|..];
    reduce; rewrite Hw; reduce; apply insert_insert_eq.
Qed.

(** Without the database directory nothing is written. *)
Lemma setLast_no_directory c w :
  is_dir (files (disk w)) (DBDirectoryPath env (config c)) = false →
  disk (setLastSuccessfulUpdateCheck env c w).2 = disk w.
Proof.
  intros Hd.
  assert (parent (marker_path env c) = DBDirectoryPath env (config c)) as Hp
    by apply removelast_last.
  unfold setLastSuccessfulUpdateCheck, OpenFileCreate. unfold_M. reduce.
  fold (marker_path env c). rewrite Hp, Hd.
  by destruct (faults (disk w) OpCreate (marker_path env c)).
Qed.

Lemma activate_failure_keeps_staged c p w e :
  (activate env c p w).1 = Some e →
  apart p (DBDirectoryPath env (config c)) →
  under p (files (disk (activate env c p w).2)) = under p (files (disk w)).
Proof.
  intros He Hap. revert He.
  unfold activate, Delete, RemoveAll, Rename. unfold_M. reduce.
  split_cases; intros; simplify_eq/=; rewrite ?under_outside_apart by done; done.
Qed.

(** C1. When integrity validation of the staged directory fails,
    [activate] returns that error, leaves the disk as it was (no removal
    and no rename is issued), and the directory at the active path
    validates afterwards exactly as it did before, so an active artifact
    that passed its integrity check still passes it. *)
Theorem activate_rejects_without_touching_active
    (c : curator) (staged : path) (w : World) (e : error) :
  validateIntegrity env c staged (disk w) = Err e →
  (activate env c staged w).1 = Some e ∧
  disk (activate env c staged w).2 = disk w ∧
  trace (activate env c staged w).2 =
    EvImportCompleted :: EvStage "validating DB integrity" :: trace w ∧
  ∀ m, validateIntegrity env c (DBDirectoryPath env (config c)) (disk w) = Ok m →
       validateIntegrity env c (DBDirectoryPath env (config c))
         (disk (activate env c staged w).2) = Ok m.
Proof.
  intros H. unfold activate. unfold_M. reduce. rewrite H. reduce. done.
Qed.

(** ** [Update] *)

(** C4. When the throttle denies the check, [Update] returns
    [(false, nil)] and leaves the world exactly as it was: no client call,
    no event, no change on disk. The result is the one of a run that
    asked the client and was offered nothing. *)
Theorem Update_throttled (c : curator) (w : World) :
  (isUpdateCheckAllowed env c w).1 = false →
  Update env c w = ((false, None), w) ∧
  ∀ w' current checkErr,
    (isUpdateCheckAllowed env c w').1 = true →
    readDatabaseDescription env (DBDirectoryPath env (config c)) (disk w') = Ok current →
    IsUpdateAvailable (client c) current = (None, checkErr) →
    (Update env c w').1 = (Update env c w).1.
Proof.
  intros H.
  assert (Update env c w = ((false, None), w)) as Hw.
  { pose proof (isUpdateCheckAllowed_denied _ _ H) as Hs.
    unfold Update. unfold mbind at 1. unfold M_bind at 1.
    destruct (isUpdateCheckAllowed env c w) as [a w1]. simplify_eq/=. reflexivity. }
  split; [exact Hw|].
  intros w' cur ce Ha Hr Hc. rewrite Hw. clear Hw H.
  pose proof (isUpdateCheckAllowed_disk c w') as Hd.
  unfold Update, client_IsUpdateAvailable. unfold_M.
  destruct (isUpdateCheckAllowed env c w') as [a w1]. simplify_eq/=.
  rewrite Hd, Hr. reduce. rewrite Hc. reduce.
  by destruct ce; reduce; [|destruct (setLastSuccessfulUpdateCheck _ _ _)].
Qed.

(** Every way through [Update] once the check is allowed and the current
    descriptor was read: the result, whether the client was asked,
    whether the marker was opened for writing, and the disk at the end. *)
Lemma Update_paths c w current update checkErr :
  (isUpdateCheckAllowed env c w).1 = true →
  readDatabaseDescription env (DBDirectoryPath env (config c)) (disk w) = Ok current →
  IsUpdateAvailable (client c) current = (update, checkErr) →
  let r := (Update env c w).1 in
  let w' := (Update env c w).2 in
  let asked := λ new, events_since w w' new ∧ EvIsUpdateAvailable current ∈ new in
  (update = None → checkErr = None →
     r = (false, None) ∧ (∃ new, asked new ∧ marker_write env c ∈ new) ∧
     disk w' = disk (setLastSuccessfulUpdateCheck env c w).2) ∧
  (update = None → checkErr ≠ None →
     r = (false, None) ∧ (∃ new, asked new ∧ marker_write env c ∉ new) ∧
     disk w' = disk w) ∧
  (∀ u, update = Some u →
     let dl := Download (client c) u (parent (DBRootDir (config c))) (files (disk w)) in
     (∀ e, dl.2 = Err e →
        r = (false, Some (ErrUpdate e)) ∧
        (∃ new, asked new ∧ marker_write env c ∉ new) ∧
        disk w' = disk (set_files dl.1 w)) ∧
     (∀ dest, dl.2 = Ok dest →
        let a := activate env c dest (set_files dl.1 w) in
        (∀ e, a.1 = Some e →
           r = (false, Some (ErrActivate e)) ∧
           (∃ new, asked new ∧ marker_write env c ∉ new) ∧
           disk w' = disk a.2) ∧
        (a.1 = None →
           r = (true, None) ∧ (∃ new, asked new ∧ marker_write env c ∈ new) ∧
           disk w' = disk (setLastSuccessfulUpdateCheck env c a.2).2))).
Proof.
  intros Ha Hr Hc. cbv zeta.
  pose proof (isUpdateCheckAllowed_disk c w) as Hd.
  destruct (isUpdateCheckAllowed_trace c w) as (t0 & Ht0 & Hn0).
  destruct (Update env c w) as [r w'] eqn:E.
  unfold Update, client_IsUpdateAvailable, client_Download in E. unfold_M.
  destruct (isUpdateCheckAllowed env c w) as [al w1]. cbn [fst snd] in Ha, Hd, Ht0. subst al.
  cbn [negb] in E. reduce in E. rewrite Hd, Hr in E. reduce in E. rewrite Hc in E. reduce in E.
  unfold events_since in *.
  split; [|split].
  - intros -> ->. reduce in E.
    match type of E with context [setLastSuccessfulUpdateCheck env c ?wx] =>
      destruct (setLast_trace c wx) as [ts Hts];
      pose proof (setLast_disk c wx w Hd) as Hsd;
      destruct (setLastSuccessfulUpdateCheck env c wx) as [[] ws] end.
    injection E as <- <-. split; [done|]. split; [|done].
    eexists. split; [split|].
    + reduce. rewrite Hts. reduce. rewrite Ht0. pack_events.
    + among.
    + among.
  - intros -> Hce. destruct checkErr as [ce|]; [|done]. reduce in E.
    injection E as <- <-. split; [done|]. split; [|done].
    eexists. split; [split|].
    + reduce. rewrite Ht0. pack_events.
    + among.
    + unfold marker_write in *. nowhere.
  - intros u ->.
    destruct checkErr as [ce|]; reduce in E; rewrite Hd in E;
    (destruct (Download (client c) u (parent (DBRootDir (config c))) (files (disk w)))
      as [fs' [dest|e]]; reduce in E; reduce;
     [ split; [intros ? [=]|]; intros ? [= <-];
       match type of E with context [activate env c dest ?wx] =>
         destruct (activate_trace c dest wx) as (ta & Hta & Hna);
         destruct (activate_disk c dest wx (set_files fs' w)) as [Ha1 Ha2];
           [reduce; by rewrite Hd|];
         destruct (activate env c dest wx) as [[ea|] wa] end;
         unfold events_since in Hta; reduce in Hta; rewrite Ht0 in Hta;
         reduce in E; reduce in Ha1; reduce in Ha2; rewrite <- Ha1;
       [ injection E as <- <-; split; [|intros [=]]; intros ? [= <-];
         split; [done|]; split; [|done];
         eexists; split; [split|];
         [ reduce; rewrite Hta; pack_events
         | among
         | unfold marker_write in *; nowhere ]
       | split; [intros ? [=]|]; intros _;
         rewrite <- (setLast_disk c _ _ Ha2);
         destruct (setLast_trace c wa) as [ts Hts];
         destruct (setLastSuccessfulUpdateCheck env c wa) as [[] ws];
         unfold events_since in Hts; reduce in Hts; rewrite Hta in Hts;
         assert (r = (true, None) ∧ ∃ l, w' = add_event EvImportCompleted
                   (add_event EvDownloadCompleted (add_event l ws))) as [-> [l ->]]
           by (destruct current; injection E as <- <-; eauto);
         split; [done|]; split; [|done];
         eexists; split; [split|];
         [ reduce; rewrite Hts; pack_events
         | among
         | among ] ]
     | split; [|intros ? [=]]; intros ? [= <-]; injection E as <- <-;
       split; [done|]; split; [|by reduce; rewrite Hd];
       eexists; split; [split|];
       [ reduce; rewrite Ht0; pack_events
       | among
       | unfold marker_write in *; nowhere ] ]).
Qed.

(** C5, as amended. Once the check is allowed and the current descriptor
    was read, [Update] calls [setLastSuccessfulUpdateCheck] in exactly
    two cases: with no candidate and no client error, returning
    [(false, nil)], and after a candidate was downloaded and activated,
    returning [(true, nil)]. In both, when the database directory is
    there and the marker can be created and written, the one change on
    disk is that the marker holds the current UTC time in RFC3339; when
    the database directory is missing nothing is written. With no
    candidate and a client error it returns [(false, nil)] without a
    call on the marker and without a change on disk; when the download
    or the activation fails it returns [false] with the wrapped error,
    without a call on the marker, the disk being as the failed step left
    it. A candidate is followed whether or not the client also reported
    an error. *)
Theorem Update_records_check
    (c : curator) (w : World) (current : option db.Description)
    (update : option distribution.Archive) (checkErr : option error) :
  (isUpdateCheckAllowed env c w).1 = true →
  readDatabaseDescription env (DBDirectoryPath env (config c)) (disk w) = Ok current →
  IsUpdateAvailable (client c) current = (update, checkErr) →
  let r := (Update env c w).1 in
  let w' := (Update env c w).2 in
  let stamp := File (FormatRFC3339 env (time.UTC (clock (disk w)))) in
  (update = None → checkErr = None →
     r = (false, None) ∧ recorded env c w w' ∧
     disk w' = disk (setLastSuccessfulUpdateCheck env c w).2 ∧
     (marker_writable env c (disk w) →
        files (disk w') = <[marker_path env c := stamp]> (files (disk w))) ∧
     (is_dir (files (disk w)) (DBDirectoryPath env (config c)) = false →
        disk w' = disk w)) ∧
  (update = None → checkErr ≠ None →
     r = (false, None) ∧ not_recorded env c w w' ∧ disk w' = disk w) ∧
  (∀ u, update = Some u →
     let dl := Download (client c) u (parent (DBRootDir (config c))) (files (disk w)) in
     (∀ e, dl.2 = Err e →
        r = (false, Some (ErrUpdate e)) ∧ not_recorded env c w w' ∧
        disk w' = disk (set_files dl.1 w)) ∧
     (∀ dest, dl.2 = Ok dest →
        let a := activate env c dest (set_files dl.1 w) in
        (∀ e, a.1 = Some e →
           r = (false, Some (ErrActivate e)) ∧ not_recorded env c w w' ∧
           disk w' = disk a.2) ∧
        (a.1 = None →
           r = (true, None) ∧ recorded env c w w' ∧
           disk w' = disk (setLastSuccessfulUpdateCheck env c a.2).2 ∧
           (marker_writable env c (disk a.2) →
              files (disk w') = <[marker_path env c := stamp]> (files (disk a.2))) ∧
           (is_dir (files (disk a.2)) (DBDirectoryPath env (config c)) = false →
              disk w' = disk a.2)))).
Proof.
  intros Ha Hr Hc. cbv zeta.
  destruct (Update_paths c w current update checkErr Ha Hr Hc) as (H1 & H2 & H3).
  unfold recorded, not_recorded.
  split; [|split].
  - intros Hu He. destruct (H1 Hu He) as (? & (new & [? ?] & ?) & Hd).
    split; [done|]. split; [eauto|]. split; [done|]. rewrite Hd. split.
    + apply setLast_files.
    + apply setLast_no_directory.
  - intros Hu He. destruct (H2 Hu He) as (? & (new & [? ?] & ?) & ?). eauto 10.
  - intros u Hu. destruct (H3 u Hu) as [H4 H5]. split.
    + intros e He. destruct (H4 e He) as (? & (new & [? ?] & ?) & ?). eauto 10.
    + intros dest Hdest. destruct (H5 dest Hdest) as [H6 H7]. split.
      * intros e He. destruct (H6 e He) as (? & (new & [? ?] & ?) & ?). eauto 10.
      * intros He. destruct (H7 He) as (? & (new & [? ?] & ?) & Hd).
        split; [done|]. split; [eauto|]. split; [done|]. rewrite Hd. split.
        -- intros Hw. rewrite (setLast_files _ _ Hw). by rewrite activate_clock.
        -- apply setLast_no_directory.
Qed.

(** ** Validation *)

(** C6, as amended. With age validation disabled [ensureNotStale]
    returns ok for every descriptor. With it enabled and a maximum age
    [D], the age is the saturating difference of now (UTC) and the build
    time and the inequality is strict: a database built exactly [D] ago
    is not stale; one built [D + 1ns] ago is stale, with an error
    carrying both durations, provided [D] is below the largest duration;
    with [D] the largest duration nothing is stale; and in general the
    answer is ok exactly when the saturated age does not exceed [D]. For
    a nil descriptor it answers that there is no metadata, under every
    age setting. *)
Theorem ensureNotStale_boundary
    (c : curator) (m : db.Description) (d : Disk) (D : Z) :
  MaxAllowedBuiltAge (config c) = D →
  time.is_Duration D →
  (ValidateAge (config c) = false → ensureNotStale c (Some m) d = None) ∧
  (ValidateAge (config c) = true → db.Built m = clock d - D →
     ensureNotStale c (Some m) d = None) ∧
  (ValidateAge (config c) = true → D < time.maxDuration →
     db.Built m = clock d - D - time.Nanosecond →
     ensureNotStale c (Some m) d = Some (ErrStale (D + 1) D)) ∧
  (ValidateAge (config c) = true →
     (ensureNotStale c (Some m) d = None ↔ time.Sub (clock d) (db.Built m) <= D)) ∧
  (D = time.maxDuration → ensureNotStale c (Some m) d = None) ∧
  ensureNotStale c None d = Some ErrNoMetadata.
Proof.
  intros HD [Hlo Hhi]. unfold ensureNotStale, Now, time.UTC. unfold_M. rewrite HD.
  unfold time.minDuration, time.maxDuration in *.
  split; [|split; [|split; [|split; [|split]]]].
  - by intros ->.
  - intros -> ->. cbn [negb].
    unfold time.Sub, time.saturate, time.minDuration, time.maxDuration.
    replace (clock d - (clock d - D)) with D by lia.
    repeat case_match; try lia; done.
  - intros -> HDm ->. cbn [negb].
    unfold time.Sub, time.saturate, time.minDuration, time.maxDuration, time.Nanosecond.
    replace (clock d - (clock d - D - 1)) with (D + 1) by lia.
    repeat case_match; try lia; done.
  - intros ->. cbn [negb]. split; case_match; try done; lia.
  - intros ->. destruct (negb (ValidateAge (config c))); [done|].
    unfold time.Sub, time.saturate, time.minDuration, time.maxDuration.
    repeat case_match; try lia; done.
  - done.
Qed.

(** C7, as amended. [validateIntegrity] fails with an error naming the
    directory when the descriptor cannot be read or is missing; with
    checksum validation enabled it fails with the error of the hashing
    itself when the payload cannot be hashed, and with an error carrying
    the payload path and both digests when the recomputed digest differs;
    past that it fails with an unsupported-version error carrying both
    model numbers when the schema version maps to no model or to another
    one, and returns the descriptor otherwise. *)
Theorem validateIntegrity_cases (c : curator) (dir : path) (d : Disk) :
  let r := validateIntegrity env c dir d in
  let dbPath := payload_path env dir in
  (∀ e, readDatabaseDescription env dir d = Err e → r = Err (ErrParseMetadata dir e)) ∧
  (readDatabaseDescription env dir d = Ok None → r = Err (ErrMetadataNotFound dir)) ∧
  (∀ m, readDatabaseDescription env dir d = Ok (Some m) →
     (ValidateChecksum (config c) = true →
        (∀ e, file_ValidateByHash env dbPath (db.Checksum m) d = Err e → r = Err e) ∧
        (∀ actual, file_ValidateByHash env dbPath (db.Checksum m) d = Ok (false, actual) →
           r = Err (ErrBadChecksum dbPath (db.Checksum m) actual))) ∧
     (checksum_passes env c dir m d →
        ∀ got ok, Model env (db.SchemaVersion m) = (got, ok) →
          (ok = false ∨ got ≠ ModelVersion env →
             r = Err (ErrUnsupportedVersion got (ModelVersion env))) ∧
          (ok = true → got = ModelVersion env → r = Ok m))).
Proof.
  cbv zeta. unfold checksum_passes, payload_path.
  split; [intros e Hr; unfold validateIntegrity; unfold_M; by rewrite Hr|].
  split; [intros Hr; unfold validateIntegrity; unfold_M; by rewrite Hr|].
  intros m Hr. split.
  - intros Hon. unfold validateIntegrity; unfold_M. rewrite Hr, Hon.
    split; [by intros e ->|by intros a ->].
  - intros Hck got ok HM.
    assert (∀ P : res db.Description → Prop,
              P (if negb ok || negb (got =? ModelVersion env)
                 then Err (ErrUnsupportedVersion got (ModelVersion env)) else Ok m) →
              P (validateIntegrity env c dir d)) as Hstep.
    { intros P HP. unfold validateIntegrity. unfold_M. rewrite Hr.
      destruct Hck as [Hoff|[a Ha]].
      - rewrite Hoff. reduce. rewrite HM. by destruct (_ || _).
      - destruct (ValidateChecksum (config c)); reduce; rewrite ?Ha; reduce;
          rewrite HM; by destruct (_ || _). }
    split.
    + intros Hbad. apply Hstep. destruct Hbad as [->|Hne]; [done|].
      destruct ok; [|done]. cbn [negb orb]. by destruct (Z.eqb_spec got (ModelVersion env)).
    + intros -> ->. apply Hstep. by rewrite Z.eqb_refl.
Qed.

(** What [file.ValidateByHash] answers, in terms of the payload file. *)
Lemma file_ValidateByHash_content p hashStr d s :
  Open p d = Ok (File s) →
  file_ValidateByHash env p hashStr d
    = Ok (String.eqb (hashOf env s) hashStr, hashOf env s).
Proof. intros Ho. unfold file_ValidateByHash. unfold_M. by rewrite Ho. Qed.

(** [Reader] hands back whatever [db.NewReader] opened, also when
    validation fails. *)
Lemma Reader_validation_failure c w s e :
  NewReader env (DBDirectoryPath env (config c)) (files (disk w)) = Ok s →
  validate env c (disk w) = Some e →
  (Reader env c w).1 = (Some s, Some e).
Proof.
  intros Hs Hv. unfold Reader, db_NewReader. unfold_M. reduce. rewrite Hs. reduce.
  by rewrite Hv.
Qed.

(** ** Staging directories after a failure *)

(** C8, as amended. [Import]: once the staging directory is created, a
    failing unarchive returns its error with the disk as the unarchive
    left it (the staging directory is not removed), while a failing
    activation returns its error after a [RemoveAll] of the staging
    directory, which leaves no entry at or below it when that call
    succeeds. [Update]: when activating a downloaded directory fails,
    the error is returned wrapped and the disk is as [activate] left it,
    so a staging directory apart from the active one keeps its entries. *)
Theorem staging_directory_after_failure (c : curator) :
  (∀ archive w tempDir wt,
     MkdirTemp env (DBRootDir (config c)) (import_pattern env)
       (add_event (EvStage "unarchiving") (add_event EvPublish w)) = (Ok tempDir, wt) →
     (∀ e wu, archiver_Unarchive env archive tempDir wt = (Some e, wu) →
        (Import env c archive w).1 = Some e ∧
        disk (Import env c archive w).2 = disk wu) ∧
     (∀ wu e wa, archiver_Unarchive env archive tempDir wt = (None, wu) →
        activate env c tempDir (add_event EvDownloadCompleted wu) = (Some e, wa) →
        (Import env c archive w).1 = Some e ∧
        disk (Import env c archive w).2 = disk (RemoveAll tempDir wa).2 ∧
        (faults (disk wa) OpRemoveAll tempDir = false →
           under tempDir (files (disk (Import env c archive w).2)) = ∅))) ∧
  (∀ w current u checkErr dest e,
     (isUpdateCheckAllowed env c w).1 = true →
     readDatabaseDescription env (DBDirectoryPath env (config c)) (disk w) = Ok current →
     IsUpdateAvailable (client c) current = (Some u, checkErr) →
     let dl := Download (client c) u (parent (DBRootDir (config c))) (files (disk w)) in
     dl.2 = Ok dest →
     (activate env c dest (set_files dl.1 w)).1 = Some e →
     (Update env c w).1 = (false, Some (ErrActivate e)) ∧
     disk (Update env c w).2 = disk (activate env c dest (set_files dl.1 w)).2 ∧
     (apart dest (DBDirectoryPath env (config c)) →
        under dest (files (disk (Update env c w).2)) = under dest dl.1)).
Proof.
  split.
  - intros archive w tempDir wt Ht. split.
    + intros e wu Hu. unfold Import. unfold_M. fold (import_pattern env).
      reduce. rewrite Ht. reduce. rewrite Hu. reduce. done.
    + intros wu e wa Hu Ha. unfold Import, removeAllOrLog. unfold_M.
      fold (import_pattern env). reduce. rewrite Ht. reduce. rewrite Hu. reduce.
      rewrite Ha. reduce.
      unfold RemoveAll. reduce. destruct (faults (disk wa) OpRemoveAll tempDir); reduce.
      * done.
      * split; [done|]. split; [done|]. intros _. apply under_outside_same.
  - intros w current u checkErr dest e Ha Hr Hc dl Hdl He. subst dl.
    destruct (Update_paths c w current (Some u) checkErr Ha Hr Hc) as (_ & _ & H3).
    destruct (H3 u eq_refl) as [_ H5]. destruct (H5 dest Hdl) as [H6 _].
    destruct (H6 e He) as (Hres & _ & Hdisk).
    split; [done|]. split; [done|]. intros Hap.
    rewrite Hdisk. by rewrite (activate_failure_keeps_staged _ _ _ _ He Hap).
Qed.

(** ** Failing marker writes *)

Section Agree.

Variable c : curator.

Lemma agree_faults d1 d2 o p :
  agree env c d1 d2 → o ≠ OpCreate → o ≠ OpWrite → faults d1 o p = faults d2 o p.
Proof.
  intros (_ & _ & Hf) Hc Hw.
  destruct (decide (faults d1 o p = faults d2 o p)) as [|Hne]; [done|].
  destruct (Hf o p Hne) as [[?|?] _]; done.
Qed.

Lemma agree_Stat p d1 d2 : agree env c d1 d2 → Stat p d1 = Stat p d2.
Proof.
  intros H. unfold Stat. rewrite (agree_faults _ _ OpStat p H) by done.
  destruct H as (-> & _). done.
Qed.

Lemma agree_Open p d1 d2 : agree env c d1 d2 → Open p d1 = Open p d2.
Proof.
  intros H. unfold Open. rewrite (agree_faults _ _ OpOpen p H) by done.
  destruct H as (-> & _). done.
Qed.

Lemma agree_readDatabaseDescription dir d1 d2 :
  agree env c d1 d2 →
  readDatabaseDescription env dir d1 = readDatabaseDescription env dir d2.
Proof.
  intros H. unfold readDatabaseDescription, file_Exists. unfold_M.
  rewrite (agree_Stat _ _ _ H).
  destruct (Stat _ d2) as [[|s]|e]; reduce; try done.
  - rewrite (agree_Open _ _ _ H). destruct (Open _ d2); reduce; [|done].
    by destruct (Decode _ _ _).
  - split_cases.
Qed.

Lemma agree_validateIntegrity dir d1 d2 :
  agree env c d1 d2 → validateIntegrity env c dir d1 = validateIntegrity env c dir d2.
Proof.
  intros H. unfold validateIntegrity, file_ValidateByHash. unfold_M.
  rewrite (agree_readDatabaseDescription _ _ _ H).
  destruct (readDatabaseDescription env dir d2) as [[m|]|e]; reduce; try done.
  destruct (ValidateChecksum (config c)); reduce.
  - rewrite (agree_Open _ _ _ H). split_cases.
  - split_cases.
Qed.

Lemma sim_RemoveAll p : sim (agree env c) (agree env c) (RemoveAll p).
Proof.
  intros w1 w2 H. unfold RemoveAll. reduce.
  rewrite (agree_faults _ _ OpRemoveAll p H) by done.
  destruct H as (Hf & Hc & Ho). rewrite Hf.
  destruct (faults (disk w2) OpRemoveAll p); reduce; (split; [done|]); split; done.
Qed.

Lemma sim_Rename p q : sim (agree env c) (agree env c) (Rename p q).
Proof.
  intros w1 w2 H. unfold Rename. reduce.
  rewrite (agree_faults _ _ OpRename p H) by done.
  destruct H as (Hf & Hc & Ho). rewrite Hf.
  split_cases; split; try done; split; done.
Qed.

Lemma sim_client_Download u p :
  sim (agree env c) (agree env c) (client_Download c u p).
Proof.
  unfold client_Download. intros w1 w2 (Hf & Hc & Ho). reduce. rewrite Hf.
  split; [done|]. split; [done|]. split; done.
Qed.

Lemma sim_durationSinceUpdateCheck :
  sim (agree env c) (agree env c) (durationSinceUpdateCheck env c).
Proof.
  unfold durationSinceUpdateCheck.
  eapply sim_bind; [apply sim_reading, agree_Stat|]. intros st.
  case_match; [eapply sim_bind; [apply sim_emit|]; intros _; apply sim_ret|].
  eapply sim_bind; [apply sim_reading, agree_Open|].
  intros [fh|e]; [|apply sim_ret].
  repeat case_match; try apply sim_ret.
  eapply sim_bind; [|intros now; apply sim_ret].
  apply sim_reading. by intros d1 d2 (_ & Hc & _).
Qed.

Lemma sim_isUpdateCheckAllowed :
  sim (agree env c) (agree env c) (isUpdateCheckAllowed env c).
Proof.
  unfold isUpdateCheckAllowed. case_match.
  - eapply sim_bind; [apply sim_emit|]. intros _. apply sim_ret.
  - eapply sim_bind; [apply sim_durationSinceUpdateCheck|].
    intros [[el|]|e]; apply sim_ret.
Qed.

Lemma sim_activate p : sim (agree env c) (agree env c) (activate env c p).
Proof.
  unfold activate. apply sim_defer; [|apply sim_emit].
  eapply sim_bind; [apply sim_emit|]. intros _.
  eapply sim_bind; [apply sim_reading, agree_validateIntegrity|].
  intros [m|e]; [|apply sim_ret].
  eapply sim_bind; [apply sim_emit|]. intros _.
  eapply sim_bind; [apply sim_reading, agree_Stat|]. intros st.
  eapply sim_bind.
  { instantiate (1 := agree env c). case_match; [apply sim_RemoveAll|apply sim_ret]. }
  intros [e|]; [apply sim_ret|apply sim_Rename].
Qed.

(** The marker is written last and answers nothing. *)
Lemma sim_setLast P : sim P anything (setLastSuccessfulUpdateCheck env c).
Proof.
  intros w1 w2 _. split; [|done].
  by destruct (setLastSuccessfulUpdateCheck env c w1) as [[] ?],
             (setLastSuccessfulUpdateCheck env c w2) as [[] ?].
Qed.

Lemma sim_Update : sim (agree env c) anything (Update env c).
Proof.
  unfold Update.
  eapply sim_bind; [apply sim_isUpdateCheckAllowed|]. intros [|]; cbn [negb].
  2: { eapply sim_weaken; [apply sim_ret|done]. }
  eapply sim_bind; [apply sim_emit|]. intros _.
  apply sim_defer.
  2: { eapply sim_bind; [apply sim_emit|]. intros _. apply sim_emit. }
  eapply sim_bind; [apply sim_reading, agree_readDatabaseDescription|].
  intros [current|e]; [|eapply sim_weaken; [apply sim_ret|done]].
  eapply sim_bind; [apply sim_emit|]. intros _.
  eapply sim_bind; [by instantiate (1 := agree env c); intros w1 w2 H|].
  intros [update checkErr].
  eapply sim_bind.
  { instantiate (1 := agree env c). destruct checkErr; apply sim_ret. }
  intros _. destruct update as [u|].
  - eapply sim_bind; [apply sim_emit|]. intros _.
    eapply sim_bind; [apply sim_emit|]. intros _.
    eapply sim_bind; [apply sim_client_Download|].
    intros [dest|e]; [|eapply sim_weaken; [apply sim_ret|done]].
    eapply sim_bind; [apply sim_activate|].
    intros [e|]; [eapply sim_weaken; [apply sim_ret|done]|].
    eapply sim_bind; [apply sim_setLast|]. intros _.
    destruct current; apply sim_ret.
  - eapply sim_bind.
    { instantiate (1 := anything). destruct checkErr.
      - eapply sim_weaken; [apply sim_ret|done].
      - apply sim_setLast. }
    intros _. apply sim_ret.
Qed.

End Agree.

(** C9. A failure to create or to write the marker file never reaches the
    caller of [Update]: two runs that differ only in whether those two
    calls on the marker fail return the same result. Inside
    [setLastSuccessfulUpdateCheck] a failed open is logged at trace level
    and nothing else happens; a failed write after a successful open is
    dropped, leaving the truncated file. *)
Theorem marker_write_failure_swallowed
    (c : curator) (w : World) (f' : Op → path → bool) :
  differ_at_marker_writes env c (faults (disk w)) f' →
  (Update env c (with_faults f' w)).1 = (Update env c w).1 ∧
  (f' OpCreate (marker_path env c) = true →
     setLastSuccessfulUpdateCheck env c (with_faults f' w) =
       (tt, add_event (EvLog LvlTrace "unable to write last update check timestamp")
              (add_event (marker_write env c) (with_faults f' w)))) ∧
  (f' OpCreate (marker_path env c) = false →
   f' OpWrite (marker_path env c) = true →
   (OpenFileCreate (marker_path env c) (with_faults f' w)).1 = Ok (marker_path env c) →
     (setLastSuccessfulUpdateCheck env c (with_faults f' w)).1 = tt ∧
     files (disk (setLastSuccessfulUpdateCheck env c (with_faults f' w)).2)
       = <[marker_path env c := File ""]> (files (disk w)) ∧
     trace (setLastSuccessfulUpdateCheck env c (with_faults f' w)).2
       = EvFs OpWrite (marker_path env c) :: marker_write env c :: trace w).
Proof.
  intros H. split; [|split].
  - symmetry. apply sim_Update. split; [done|]. split; done.
  - intros Hc. unfold setLastSuccessfulUpdateCheck, OpenFileCreate. unfold_M. reduce.
    fold (marker_path env c). unfold with_faults at 1. reduce. by rewrite Hc.
  - intros Hc Hw. unfold setLastSuccessfulUpdateCheck, OpenFileCreate, Fprintf.
    unfold_M. reduce. fold (marker_path env c). unfold with_faults. reduce.
    rewrite Hc. split_cases. all: by rewrite Hw.
Qed.

(** ** First install *)

Lemma fresh_root_absent c d :
  fresh_root env c d →
  marker_absent env c d ∧ descriptor_absent env (DBDirectoryPath env (config c)) d.
Proof.
  intros (Hu & _ & Hf). unfold marker_absent, descriptor_absent, Stat.
  rewrite !Hf. unfold marker_path, descriptor_path.
  by rewrite !(under_empty_lookup _ _ _ Hu).
Qed.

Lemma readDatabaseDescription_absent dir d :
  descriptor_absent env dir d → readDatabaseDescription env dir d = Ok None.
Proof.
  unfold descriptor_absent, descriptor_path, readDatabaseDescription, file_Exists.
  unfold_M. destruct (Stat _ d) as [n|e]; [done|]. cbn [err_of]. by intros ->.
Qed.

Lemma readDatabaseDescription_undecodable dir d s e :
  Stat (descriptor_path env dir) d = Ok (File s) →
  Open (descriptor_path env dir) d = Ok (File s) →
  jsonDecode env s = Err e →
  readDatabaseDescription env dir d = Err (ErrDecodeMetadata (descriptor_path env dir) e).
Proof.
  unfold descriptor_path, readDatabaseDescription, file_Exists, Decode. unfold_M.
  intros -> -> He. cbn. by rewrite He.
Qed.

Lemma Update_fresh_root c w :
  fresh_root env c (disk w) →
  (∀ e, (Update env c w).1 ≠ (false, Some (ErrReadCurrent e))) ∧
  ∃ new, events_since w (Update env c w).2 new ∧ EvIsUpdateAvailable None ∈ new.
Proof.
  intros Hfr. destruct (fresh_root_absent _ _ Hfr) as [Hm Hd].
  pose proof (isUpdateCheckAllowed_absent _ _ Hm) as Ha.
  pose proof (readDatabaseDescription_absent _ _ Hd) as Hr.
  destruct (IsUpdateAvailable (client c) None) as [update checkErr] eqn:Hc.
  destruct (Update_paths c w None update checkErr Ha Hr Hc) as (H1 & H2 & H3).
  destruct update as [u|].
  - destruct (H3 u eq_refl) as [H4 H5].
    destruct (Download (client c) u (parent (DBRootDir (config c))) (files (disk w))).2
      as [dest|e] eqn:Hdl.
    + destruct (H5 dest eq_refl) as [H6 H7].
      destruct (activate env c dest _).1 as [e|].
      * destruct (H6 e eq_refl) as (-> & (new & [? ?] & _) & _). split; [done|eauto].
      * destruct (H7 eq_refl) as (-> & (new & [? ?] & _) & _). split; [done|eauto].
    + destruct (H4 e eq_refl) as (-> & (new & [? ?] & _) & _). split; [done|eauto].
  - destruct checkErr as [ce|].
    + destruct (H2 eq_refl) as (-> & (new & [? ?] & _) & _); [done|]. split; [done|eauto].
    + destruct (H1 eq_refl eq_refl) as (-> & (new & [? ?] & _) & _). split; [done|eauto].
Qed.

End Properties.


(** * The statements on the concrete installation *)

Import Scenario.

Ltac compute_eq := vm_compute; reflexivity.

(** ** Reader *)

(** C2. On an installation whose database is ten days old (maximum age
    five days), [db.NewReader] succeeds, [validate] fails, and [Reader]
    returns the open handle together with the staleness error: the handle
    is not withheld. *)
Theorem Reader_returns_handle_with_error :
  validate env (curator_of upToDate) (disk outdated)
    = Some (ErrStale (10 * Day) (5 * Day)) ∧
  (Reader env (curator_of upToDate) outdated).1
    = (Some (db.mkReader active), Some (ErrStale (10 * Day) (5 * Day))).
Proof. split; compute_eq. Qed.

(** The path of [Reader] on which [db.NewReader] itself fails returns no
    handle. *)
Example Reader_without_database :
  (Reader env (curator_of upToDate) first_run).1
    = (None, Some (ErrExternal "unable to open database")).
Proof. compute_eq. Qed.

(** ** activate *)

(** A download whose payload was tampered with is rejected; the outdated
    database stays in place and still validates. *)
Lemma activate_rejects_without_touching_active_witness :
  let c := curator_of tampered in
  let e := ErrBadChecksum (staging ++ ["vulnerability.db"])
             "xxh64:payload-new" "xxh64:payload-tampered" in
  validateIntegrity env c staging (disk staged_tampered) = Err e ∧
  (activate env c staging staged_tampered).1 = Some e ∧
  disk (activate env c staging staged_tampered).2 = disk staged_tampered ∧
  validateIntegrity env c active (disk (activate env c staging staged_tampered).2) = Ok old.
Proof.
  cbv zeta.
  assert (validateIntegrity env (curator_of tampered) staging (disk staged_tampered)
          = Err (ErrBadChecksum (staging ++ ["vulnerability.db"])
                   "xxh64:payload-new" "xxh64:payload-tampered")) as H by compute_eq.
  destruct (activate_rejects_without_touching_active env _ _ _ _ H) as (H1 & H2 & _ & H4).
  split; [exact H|]. split; [exact H1|]. split; [exact H2|].
  apply H4. compute_eq.
Defined.

(** ** The throttle *)

(** The throttle with no frequency, on a first run, on a garbled marker,
    three hours after a check and half an hour after one (frequency two
    hours). *)
Lemma isUpdateCheckAllowed_spec_witness :
  (isUpdateCheckAllowed env unthrottled checked_recently).1 = true ∧
  (isUpdateCheckAllowed env (curator_of upToDate) first_run).1 = true ∧
  (isUpdateCheckAllowed env (curator_of upToDate) marker_garbled).1 = true ∧
  (isUpdateCheckAllowed env (curator_of upToDate) checked_long_ago).1 = true ∧
  (isUpdateCheckAllowed env (curator_of upToDate) checked_recently).1 ≠ true.
Proof.
  split; [|split; [|split; [|split]]].
  - destruct (isUpdateCheckAllowed_spec env unthrottled checked_recently) as (H & _).
    apply H. reflexivity.
  - destruct (isUpdateCheckAllowed_spec env (curator_of upToDate) first_run)
      as (_ & H & _).
    apply H. compute_eq.
  - destruct (isUpdateCheckAllowed_spec env (curator_of upToDate) marker_garbled)
      as (_ & _ & H & _).
    apply H. split; [compute_eq|]. right. exists (File "last tuesday"). split; [compute_eq|].
    right. exists "last tuesday". split; [compute_eq|].
    left. exists (ErrExternal "cannot parse as RFC3339"). compute_eq.
  - destruct (isUpdateCheckAllowed_spec env (curator_of upToDate) checked_long_ago)
      as (_ & _ & _ & H & _).
    apply (H (now - 3 * time.Hour)); [discriminate| |compute_eq].
    split; [compute_eq|].
    exists (File "2026-10-30T07:00:00Z"), "2026-10-30T07:00:00Z".
    repeat split; compute_eq.
  - destruct (isUpdateCheckAllowed_spec env (curator_of upToDate) checked_recently)
      as (_ & _ & _ & H & _).
    intros Ha. apply (H (now - 30 * time.Minute)) in Ha; [discriminate Ha|discriminate|].
    split; [compute_eq|].
    exists (File "2026-10-30T09:30:00Z"), "2026-10-30T09:30:00Z".
    repeat split; compute_eq.
Defined.

(** ** Update *)

(** Half an hour after a check nothing happens, and the answer is the one
    of an unthrottled check that found nothing. *)
Lemma Update_throttled_witness :
  (isUpdateCheckAllowed env (curator_of upToDate) checked_recently).1 = false ∧
  Update env (curator_of upToDate) checked_recently = ((false, None), checked_recently) ∧
  (Update env (curator_of upToDate) installed).1
    = (Update env (curator_of upToDate) checked_recently).1.
Proof.
  assert ((isUpdateCheckAllowed env (curator_of upToDate) checked_recently).1 = false)
    as H by compute_eq.
  destruct (Update_throttled env (curator_of upToDate) checked_recently H) as [H1 H2].
  split; [exact H|]. split; [exact H1|].
  apply (H2 installed (Some fresh) None); compute_eq.
Defined.

(** The ways through [Update]: nothing new on an installation and on a
    first run, client offline, download failing, download tampered
    with, download good. *)
Lemma Update_records_check_witness :
  ((Update env (curator_of upToDate) installed).1 = (false, None) ∧
   recorded env (curator_of upToDate) installed
     (Update env (curator_of upToDate) installed).2 ∧
   files (disk (Update env (curator_of upToDate) installed).2)
     = <[marker := File "2026-10-30T10:00:00Z"]> (files (disk installed))) ∧
  ((Update env (curator_of upToDate) first_run).1 = (false, None) ∧
   disk (Update env (curator_of upToDate) first_run).2 = disk first_run) ∧
  ((Update env (curator_of offline) installed).1 = (false, None) ∧
   not_recorded env (curator_of offline) installed
     (Update env (curator_of offline) installed).2 ∧
   disk (Update env (curator_of offline) installed).2 = disk installed) ∧
  ((Update env (curator_of unreachable) installed).1
     = (false, Some (ErrUpdate (ErrExternal "connection reset"))) ∧
   not_recorded env (curator_of unreachable) installed
     (Update env (curator_of unreachable) installed).2) ∧
  ((Update env (curator_of tampered) outdated).1
     = (false, Some (ErrActivate (ErrBadChecksum (staging ++ ["vulnerability.db"])
                                    "xxh64:payload-new" "xxh64:payload-tampered"))) ∧
   not_recorded env (curator_of tampered) outdated
     (Update env (curator_of tampered) outdated).2) ∧
  ((Update env (curator_of newer) outdated).1 = (true, None) ∧
   recorded env (curator_of newer) outdated (Update env (curator_of newer) outdated).2 ∧
   files (disk (Update env (curator_of newer) outdated).2) !! marker
     = Some (File "2026-10-30T10:00:00Z")).
Proof.
  split; [|split; [|split; [|split; [|split]]]].
  - destruct (Update_records_check env (curator_of upToDate) installed (Some fresh) None None)
      as (H & _); [compute_eq..|].
    destruct (H eq_refl eq_refl) as (H1 & H2 & _ & H3 & _).
    split; [exact H1|]. split; [exact H2|]. apply H3.
    split; [compute_eq|]. split; [vm_compute; discriminate|]. split; reflexivity.
  - destruct (Update_records_check env (curator_of upToDate) first_run None None None)
      as (H & _); [compute_eq..|].
    destruct (H eq_refl eq_refl) as (H1 & _ & _ & _ & H4).
    split; [exact H1|]. apply H4. compute_eq.
  - destruct (Update_records_check env (curator_of offline) installed (Some fresh) None
                (Some (ErrExternal "network unreachable")))
      as (_ & H & _); [compute_eq..|].
    destruct (H eq_refl) as (H1 & H2 & H3); [discriminate|]. by repeat split.
  - destruct (Update_records_check env (curator_of unreachable) installed (Some fresh)
                (Some candidate) None)
      as (_ & _ & H); [compute_eq..|].
    destruct (H candidate eq_refl) as [H4 _].
    destruct (H4 (ErrExternal "connection reset")) as (H1 & H2 & _); [compute_eq|].
    by split.
  - destruct (Update_records_check env (curator_of tampered) outdated (Some old)
                (Some candidate) None)
      as (_ & _ & H); [compute_eq..|].
    destruct (H candidate eq_refl) as [_ H5].
    destruct (H5 staging) as [H6 _]; [compute_eq|].
    destruct (H6 (ErrBadChecksum (staging ++ ["vulnerability.db"])
                    "xxh64:payload-new" "xxh64:payload-tampered"))
      as (H1 & H2 & _); [compute_eq|].
    by split.
  - destruct (Update_records_check env (curator_of newer) outdated (Some old)
                (Some candidate) None)
      as (_ & _ & H); [compute_eq..|].
    destruct (H candidate eq_refl) as [_ H5].
    destruct (H5 staging) as [_ H7]; [compute_eq|].
    destruct H7 as (H1 & H2 & _ & H3 & _); [compute_eq|].
    split; [exact H1|]. split; [exact H2|].
    rewrite H3; [apply lookup_insert_eq|].
    split; [compute_eq|]. split; [vm_compute; discriminate|]. split; reflexivity.
Defined.

(** C5, counterexample to the statement as the specification gives it:
    on a first run the throttle allows the check, no descriptor is read,
    the client reports no candidate and no error, [Update] returns
    [(false, nil)], and no timestamp is recorded: the database directory
    is missing, so the marker cannot be created, and the disk is as it
    was. *)
Lemma Update_first_run_marker_not_written :
  (isUpdateCheckAllowed env (curator_of upToDate) first_run).1 = true ∧
  readDatabaseDescription env active (disk first_run) = Ok None ∧
  IsUpdateAvailable (client (curator_of upToDate)) None = (None, None) ∧
  (Update env (curator_of upToDate) first_run).1 = (false, None) ∧
  files (disk (Update env (curator_of upToDate) first_run).2) !! marker = None ∧
  files (disk (Update env (curator_of upToDate) first_run).2) = files (disk first_run).
Proof. repeat split; compute_eq. Qed.

(** ** ensureNotStale *)

(** C6, counterexample to the statement as the specification gives it:
    age validation is on, the maximum age [D] is the largest duration,
    the database was built [D + 1ns] ago, and [ensureNotStale] returns
    ok: the age saturates at [D]. *)
Lemma ensureNotStale_saturated_age :
  ValidateAge (config never_stale) = true ∧
  MaxAllowedBuiltAge (config never_stale) = time.maxDuration ∧
  db.Built (built_at (now - time.maxDuration - time.Nanosecond))
    = clock (disk installed) - time.maxDuration - time.Nanosecond ∧
  ensureNotStale never_stale
    (Some (built_at (now - time.maxDuration - time.Nanosecond))) (disk installed) = None.
Proof. repeat split; compute_eq. Qed.

(** The guard against a nil descriptor comes before the age setting is
    looked at. *)
Example ensureNotStale_without_descriptor :
  ValidateAge (config age_unchecked) = false ∧
  ensureNotStale age_unchecked None (disk installed) = Some ErrNoMetadata ∧
  ensureNotStale (curator_of upToDate) None (disk installed) = Some ErrNoMetadata.
Proof. repeat split; reflexivity. Qed.

(** The boundary at the default maximum age of five days. *)
Lemma ensureNotStale_boundary_witness :
  ensureNotStale age_unchecked (Some old) (disk installed) = None ∧
  ensureNotStale (curator_of upToDate) (Some (built_at (now - 5 * Day))) (disk installed)
    = None ∧
  ensureNotStale (curator_of upToDate)
    (Some (built_at (now - 5 * Day - time.Nanosecond))) (disk installed)
    = Some (ErrStale (5 * Day + 1) (5 * Day)) ∧
  ensureNotStale (curator_of upToDate) None (disk installed) = Some ErrNoMetadata.
Proof.
  assert (time.is_Duration (5 * Day)) as HD.
  { unfold time.is_Duration, time.minDuration, time.maxDuration, Day, time.Hour,
      time.Minute, time.Second. lia. }
  split; [|split; [|split]].
  - destruct (ensureNotStale_boundary age_unchecked old (disk installed) (5 * Day))
      as (H & _); [reflexivity|exact HD|].
    apply H. reflexivity.
  - destruct (ensureNotStale_boundary (curator_of upToDate) (built_at (now - 5 * Day))
                (disk installed) (5 * Day))
      as (_ & H & _); [compute_eq|exact HD|].
    apply H; reflexivity.
  - destruct (ensureNotStale_boundary (curator_of upToDate)
                (built_at (now - 5 * Day - time.Nanosecond)) (disk installed) (5 * Day))
      as (_ & _ & H & _); [compute_eq|exact HD|].
    apply H; [reflexivity| |reflexivity].
    unfold time.maxDuration, Day, time.Hour, time.Minute, time.Second. lia.
  - destruct (ensureNotStale_boundary (curator_of upToDate) fresh (disk installed) (5 * Day))
      as (_ & _ & _ & _ & _ & H); [compute_eq|exact HD|].
    exact H.
Defined.

(** ** validateIntegrity *)

(** C7, counterexample to the statement as the specification gives it:
    the descriptor is there and decodes, its schema version maps to the
    supported model, checksum validation is on and no digest could be
    recomputed because the payload file is missing; [validateIntegrity]
    returns the error of the hashing, which is none of the three errors
    listed, and not the descriptor. *)
Lemma validateIntegrity_payload_missing :
  readDatabaseDescription env active (disk payload_missing) = Ok (Some fresh) ∧
  Model env (db.SchemaVersion fresh) = (ModelVersion env, true) ∧
  ValidateChecksum (config (curator_of upToDate)) = true ∧
  file_ValidateByHash env (payload_path env active) (db.Checksum fresh) (disk payload_missing)
    = Err (ErrNotExist (payload_path env active)) ∧
  validateIntegrity env (curator_of upToDate) active (disk payload_missing)
    = Err (ErrNotExist (payload_path env active)).
Proof. repeat split; compute_eq. Qed.

(** Each outcome of [validateIntegrity] on an installation showing it. *)
Lemma validateIntegrity_cases_witness :
  validateIntegrity env (curator_of upToDate) active (disk descriptor_garbled)
    = Err (ErrParseMetadata active
             (ErrDecodeMetadata (descriptor_path env active)
                (ErrExternal "invalid character looking for beginning of value"))) ∧
  validateIntegrity env (curator_of upToDate) active (disk first_run)
    = Err (ErrMetadataNotFound active) ∧
  validateIntegrity env (curator_of upToDate) active (disk payload_missing)
    = Err (ErrNotExist (payload_path env active)) ∧
  validateIntegrity env (curator_of upToDate) staging (disk staged_tampered)
    = Err (ErrBadChecksum (payload_path env staging)
             "xxh64:payload-new" "xxh64:payload-tampered") ∧
  validateIntegrity env (curator_of upToDate) active (disk legacy_installed)
    = Err (ErrUnsupportedVersion 5 6) ∧
  validateIntegrity env (curator_of upToDate) active (disk installed) = Ok fresh.
Proof.
  split; [|split; [|split; [|split; [|split]]]].
  - destruct (validateIntegrity_cases env (curator_of upToDate) active
                (disk descriptor_garbled)) as (H & _).
    apply H. compute_eq.
  - destruct (validateIntegrity_cases env (curator_of upToDate) active (disk first_run))
      as (_ & H & _).
    apply H. compute_eq.
  - destruct (validateIntegrity_cases env (curator_of upToDate) active
                (disk payload_missing)) as (_ & _ & H).
    destruct (H fresh) as [H1 _]; [compute_eq|].
    destruct H1 as [H2 _]; [reflexivity|]. apply H2. compute_eq.
  - destruct (validateIntegrity_cases env (curator_of upToDate) staging
                (disk staged_tampered)) as (_ & _ & H).
    destruct (H fresh) as [H1 _]; [compute_eq|].
    destruct H1 as [_ H2]; [reflexivity|]. apply H2. compute_eq.
  - destruct (validateIntegrity_cases env (curator_of upToDate) active
                (disk legacy_installed)) as (_ & _ & H).
    destruct (H legacy) as [_ H1]; [compute_eq|].
    destruct (H1 ltac:(right; exists "xxh64:payload-v5"; compute_eq) 5 true)
      as [H2 _]; [compute_eq|].
    apply H2. right. discriminate.
  - destruct (validateIntegrity_cases env (curator_of upToDate) active (disk installed))
      as (_ & _ & H).
    destruct (H fresh) as [_ H1]; [compute_eq|].
    destruct (H1 ltac:(right; exists "xxh64:payload-new"; compute_eq) 6 true)
      as [_ H2]; [compute_eq|].
    apply H2; reflexivity.
Defined.

(** ** Staging directories *)

(** C8, counterexample to the statement as the specification gives it:
    this [Import] creates its staging directory, fails at unarchiving, and
    returns with the staging directory still there. *)
Lemma Import_unarchive_failure_keeps_staging :
  (MkdirTemp env root (import_pattern env)
     (add_event (EvStage "unarchiving") (add_event EvPublish installed))).1 = Ok import_dir ∧
  (Import env (curator_of upToDate) "missing.tar" installed).1
    = Some (ErrExternal "format unrecognized by filename") ∧
  files (disk (Import env (curator_of upToDate) "missing.tar" installed).2) !! import_dir
    = Some Dir.
Proof. repeat split; compute_eq. Qed.

(** An import that fails to unarchive, an import and an update that fail
    to activate. *)
Lemma staging_directory_after_failure_witness :
  ((Import env (curator_of upToDate) "missing.tar" installed).1
     = Some (ErrExternal "format unrecognized by filename")) ∧
  ((Import env (curator_of upToDate) "tampered.tar" installed).1
     = Some (ErrBadChecksum (import_dir ++ ["vulnerability.db"])
               "xxh64:payload-new" "xxh64:payload-tampered") ∧
   under import_dir (files (disk (Import env (curator_of upToDate) "tampered.tar"
                                    installed).2)) = ∅) ∧
  ((Update env (curator_of tampered) outdated).1
     = (false, Some (ErrActivate (ErrBadChecksum (staging ++ ["vulnerability.db"])
                                    "xxh64:payload-new" "xxh64:payload-tampered"))) ∧
   under staging (files (disk (Update env (curator_of tampered) outdated).2))
     = under staging (files (disk staged_tampered))).
Proof.
  destruct (staging_directory_after_failure env (curator_of upToDate)) as [HI _].
  destruct (staging_directory_after_failure env (curator_of tampered)) as [_ HU].
  pose (w0 := add_event (EvStage "unarchiving") (add_event EvPublish installed)).
  pose (wt := (MkdirTemp env root (import_pattern env) w0).2).
  split; [|split].
  - destruct (HI "missing.tar" installed import_dir wt) as [H1 _]; [compute_eq|].
    destruct (H1 (ErrExternal "format unrecognized by filename")
                (archiver_Unarchive env "missing.tar" import_dir wt).2) as [H _];
      [compute_eq|exact H].
  - destruct (HI "tampered.tar" installed import_dir wt) as [_ H2]; [compute_eq|].
    pose (wu := (archiver_Unarchive env "tampered.tar" import_dir wt).2).
    destruct (H2 wu
                (ErrBadChecksum (import_dir ++ ["vulnerability.db"])
                   "xxh64:payload-new" "xxh64:payload-tampered")
                (activate env (curator_of upToDate) import_dir
                   (add_event EvDownloadCompleted wu)).2)
      as (H & _ & H'); [compute_eq..|].
    split; [exact H|]. apply H'. reflexivity.
  - destruct (HU outdated (Some old) candidate None staging
                (ErrBadChecksum (staging ++ ["vulnerability.db"])
                   "xxh64:payload-new" "xxh64:payload-tampered"))
      as (H & _ & H'); [compute_eq..|].
    split; [exact H|]. apply H'.
    split; intros [k Hk]; by destruct k as [|?[|?[|]]].
Defined.

(** ** A marker that cannot be written *)

(** Three hours after the last check, with a marker that cannot be created
    and with one that cannot be written. *)
Lemma marker_write_failure_swallowed_witness :
  (Update env (curator_of upToDate)
     (with_faults marker_write_faults checked_long_ago)).1
    = (Update env (curator_of upToDate) checked_long_ago).1 ∧
  (Update env (curator_of upToDate)
     (with_faults marker_print_faults checked_long_ago)).1
    = (Update env (curator_of upToDate) checked_long_ago).1 ∧
  (Update env (curator_of upToDate) checked_long_ago).1 = (false, None) ∧
  trace (setLastSuccessfulUpdateCheck env (curator_of upToDate)
           (with_faults marker_write_faults checked_long_ago)).2
    = [EvLog LvlTrace "unable to write last update check timestamp";
       EvFs OpCreate marker] ∧
  files (disk (setLastSuccessfulUpdateCheck env (curator_of upToDate)
                 (with_faults marker_print_faults checked_long_ago)).2) !! marker
    = Some (File "").
Proof.
  assert (differ_at_marker_writes env (curator_of upToDate)
            (faults (disk checked_long_ago)) marker_write_faults) as Hc.
  { intros o p Hne. unfold marker_write_faults in Hne.
    destruct (bool_decide (o = OpCreate)) eqn:Ho, (bool_decide (p = marker)) eqn:Hp;
      try done.
    apply bool_decide_eq_true in Ho, Hp. split; [by left|]. rewrite Hp. compute_eq. }
  assert (differ_at_marker_writes env (curator_of upToDate)
            (faults (disk checked_long_ago)) marker_print_faults) as Hw.
  { intros o p Hne. unfold marker_print_faults in Hne.
    destruct (bool_decide (o = OpWrite)) eqn:Ho, (bool_decide (p = marker)) eqn:Hp;
      try done.
    apply bool_decide_eq_true in Ho, Hp. split; [by right|]. rewrite Hp. compute_eq. }
  destruct (marker_write_failure_swallowed env _ _ _ Hc) as (H1 & H2 & _).
  destruct (marker_write_failure_swallowed env _ _ _ Hw) as (H3 & _ & H4).
  split; [exact H1|]. split; [exact H3|]. split; [compute_eq|]. split.
  - rewrite H2 by compute_eq. reflexivity.
  - destruct H4 as (_ & H5 & _); [compute_eq..|]. rewrite H5. apply lookup_insert_eq.
Defined.

(** ** First install *)

(** C10. When the descriptor file of a directory is absent,
    [readDatabaseDescription] returns no descriptor and no error, whereas a
    descriptor that does not decode gives an error. With nothing
    installed, no regular file in the way of the database directory and
    working stats, [Update] therefore does not fail at reading the current
    descriptor and asks the client with no current descriptor; and there is
    such a first run on which it installs the database and returns
    [(true, nil)], after which the installation validates. *)
Theorem first_install_update :
  (∀ env dir d,
     descriptor_absent env dir d → readDatabaseDescription env dir d = Ok None) ∧
  (∀ env dir d s e,
     Stat (descriptor_path env dir) d = Ok (File s) →
     Open (descriptor_path env dir) d = Ok (File s) →
     jsonDecode env s = Err e →
     readDatabaseDescription env dir d
       = Err (ErrDecodeMetadata (descriptor_path env dir) e)) ∧
  (∀ env c w,
     fresh_root env c (disk w) →
     (∀ e, (Update env c w).1 ≠ (false, Some (ErrReadCurrent e))) ∧
     ∃ new, events_since w (Update env c w).2 new ∧ EvIsUpdateAvailable None ∈ new) ∧
  (∃ env c w,
     fresh_root env c (disk w) ∧
     (Update env c w).1 = (true, None) ∧
     validate env c (disk (Update env c w).2) = None).
Proof.
  split; [|split; [|split]].
  - intros. by apply readDatabaseDescription_absent.
  - intros env0 dir d s e Hs Ho He.
    by apply (readDatabaseDescription_undecodable env0 dir d s e).
  - intros. by apply Update_fresh_root.
  - exists env, (curator_of newer), first_run.
    split; [split; [compute_eq|split; [compute_eq|done]]|]. split; compute_eq.
Qed.

(** The first run against a client that offers a database. *)
Lemma first_install_update_witness :
  readDatabaseDescription env active (disk first_run) = Ok None ∧
  readDatabaseDescription env active (disk descriptor_garbled)
    = Err (ErrDecodeMetadata (descriptor_path env active)
             (ErrExternal "invalid character looking for beginning of value")) ∧
  (∃ new, events_since first_run (Update env (curator_of newer) first_run).2 new ∧
          EvIsUpdateAvailable None ∈ new).
Proof.
  destruct first_install_update as (H1 & H2 & H3 & _).
  split; [|split].
  - apply H1. compute_eq.
  - apply (H2 env active (disk descriptor_garbled) "<html>"); compute_eq.
  - apply H3. split; [compute_eq|split; [compute_eq|done]].
Defined.


(** * Further properties *)

(** ** More on the file tree *)

Lemma outside_lookup_apart (p k : path) (fs : Files) :
  ¬ p `prefix_of` k → outside p fs !! k = fs !! k.
Proof.
  intros Hp. unfold outside. destruct (fs !! k) as [x|] eqn:Hk.
  - apply map_lookup_filter_Some. by split.
  - apply map_lookup_filter_None. by left.
Qed.

Lemma outside_lookup_under (p k : path) (fs : Files) :
  p `prefix_of` k → outside p fs !! k = None.
Proof.
  intros Hp. apply map_lookup_filter_None. right. intros x _ Hn. by apply Hn.
Qed.

Lemma outside_id (p : path) (fs : Files) : under p fs = ∅ → outside p fs = fs.
Proof.
  intros Hu. apply map_eq. intros k.
  destruct (decide (p `prefix_of` k)) as [Hp|Hp]; [|by apply outside_lookup_apart].
  rewrite outside_lookup_under by done.
  destruct (fs !! k) as [x|] eqn:Hk; [|done].
  exfalso. by eapply (map_filter_empty_not_lookup _ fs k x).
Qed.

Lemma outside_outside (p : path) (fs : Files) : outside p (outside p fs) = outside p fs.
Proof. apply outside_id, under_outside_same. Qed.

Lemma prefix_app_drop (old k : path) :
  old `prefix_of` k → k = old ++ drop (length old) k.
Proof. intros [s ->]. by rewrite drop_app_length. Qed.

(** The entry that ends up at [new ++ s] is the one that was at
    [old ++ s]. *)
Lemma moved_lookup_new (old new s : path) (fs : Files) :
  moved old new fs !! (new ++ s) = fs !! (old ++ s).
Proof.
  unfold moved.
  assert (outside new (outside old fs) !! (new ++ s) = None) as Hout
    by (apply outside_lookup_under; by apply prefix_app_r).
  set (f := λ k : path, new ++ drop (length old) k).
  set (l := prod_map f id <$> map_to_list (under old fs)).
  assert (NoDup l.*1) as Hnd.
  { subst l. rewrite <- list_fmap_compose.
    replace (fst ∘ prod_map f id) with (f ∘ (fst : path * node → path)) by done.
    rewrite list_fmap_compose. apply NoDup_fmap_2_strong; [|apply NoDup_fst_map_to_list].
    intros k1 k2 H1 H2 Hf.
    apply list_elem_of_fmap in H1 as [[k1' x1] [-> H1]].
    apply list_elem_of_fmap in H2 as [[k2' x2] [-> H2]].
    apply elem_of_map_to_list, map_lookup_filter_Some in H1 as [_ H1].
    apply elem_of_map_to_list, map_lookup_filter_Some in H2 as [_ H2].
    cbn in *. unfold f in Hf. apply app_inv_head in Hf.
    rewrite (prefix_app_drop _ _ H1), (prefix_app_drop _ _ H2). by rewrite Hf. }
  destruct (fs !! (old ++ s)) as [x|] eqn:Hk.
  - apply lookup_union_Some_raw. left. unfold kmap. fold l.
    apply elem_of_list_to_map_1; [done|].
    subst l. apply list_elem_of_fmap. exists (old ++ s, x). split.
    + unfold f. cbn. by rewrite drop_app_length.
    + apply elem_of_map_to_list, map_lookup_filter_Some. split; [done|].
      cbn. by apply prefix_app_r.
  - apply lookup_union_None. split; [|done]. unfold kmap. fold l.
    apply not_elem_of_list_to_map_1. intros Hin.
    apply list_elem_of_fmap in Hin as [[j x] [Hj Hin]].
    subst l. apply list_elem_of_fmap in Hin as [[k y] [[= -> ->] Hin]].
    apply elem_of_map_to_list, map_lookup_filter_Some in Hin as [Hin Hp].
    cbn in *. unfold f in Hj. apply app_inv_head in Hj.
    rewrite (prefix_app_drop _ _ Hp), <- Hj in Hin. congruence.
Qed.

(** Entries below neither directory stay. *)
Lemma moved_lookup_other (old new k : path) (fs : Files) :
  ¬ old `prefix_of` k → ¬ new `prefix_of` k → moved old new fs !! k = fs !! k.
Proof.
  intros Ho Hn. unfold moved.
  assert ((kmap (λ k : path, new ++ drop (length old) k) (under old fs) : Files) !! k = None)
    as Hk.
  { unfold kmap. apply not_elem_of_list_to_map_1. intros Hin.
    apply list_elem_of_fmap in Hin as [[j x] [Hj Hin]].
    apply list_elem_of_fmap in Hin as [[k' y] [[= -> ->] Hin]].
    cbn in Hj. apply Hn. rewrite Hj. by apply prefix_app_r. }
  destruct (fs !! k) as [x|] eqn:Hfs.
  - apply lookup_union_Some_raw. right. split; [done|].
    by rewrite !outside_lookup_apart.
  - apply lookup_union_None. split; [done|]. by rewrite !outside_lookup_apart.
Qed.

(** Nothing is left where the entries came from. *)
Lemma moved_under_old (old new : path) (fs : Files) :
  apart old new → under old (moved old new fs) = ∅.
Proof.
  intros [Hon Hno]. apply map_eq. intros k. rewrite lookup_empty.
  apply map_lookup_filter_None.
  destruct (decide (old `prefix_of` k)) as [Hp|Hp]; [|by right; intros x _].
  left. cbn in *. unfold moved. apply lookup_union_None. split.
  - unfold kmap. apply not_elem_of_list_to_map_1. intros Hin.
    apply list_elem_of_fmap in Hin as [[j x] [Hj Hin]].
    apply list_elem_of_fmap in Hin as [[k' y] [[= -> ->] Hin]].
    cbn in Hj. assert (new `prefix_of` k) as Hq by (rewrite Hj; by apply prefix_app_r).
    destruct (prefix_weak_total _ _ _ Hp Hq); done.
  - destruct (decide (new `prefix_of` k)) as [Hq|Hq].
    + by apply outside_lookup_under.
    + rewrite outside_lookup_apart by done. by apply outside_lookup_under.
Qed.

Lemma node_at_snoc (fs : Files) (p : path) (x : string) :
  node_at fs (p ++ [x]) = fs !! (p ++ [x]).
Proof. unfold node_at. by destruct p. Qed.

Lemma string_length_app (s1 s2 : string) :
  String.length (s1 +:+ s2) = (String.length s1 + String.length s2)%nat.
Proof. induction s1 as [|a s1 IH]; simpl; [done|]. by f_equal. Qed.

Lemma apart_siblings (p : path) (x y : string) : x ≠ y → apart (p ++ [x]) (p ++ [y]).
Proof.
  intros Hxy. split; intros [s Hs].
  - rewrite <- app_assoc in Hs. apply app_inv_head in Hs.
    destruct s; simplify_eq/=.
  - rewrite <- app_assoc in Hs. apply app_inv_head in Hs.
    destruct s; simplify_eq/=.
Qed.

Lemma apart_sym (p q : path) : apart p q → apart q p.
Proof. intros [? ?]. by split. Qed.

Lemma apart_below (p q s : path) : apart p q → ¬ q `prefix_of` p ++ s.
Proof.
  intros [Hpq Hqp] Hq.
  destruct (prefix_weak_total p q (p ++ s)); [by apply prefix_app_r|done|done|done].
Qed.

(** ** Which events a run adds *)

Section Emits.

Context {A B : Type}.
Implicit Types P Q : event → Prop.

Lemma emits_only_ret P (a : A) : emits_only P (mret a).
Proof. intros w. exists []. split; [done|]. intros e He. by apply elem_of_nil in He. Qed.

Lemma emits_only_bind P (m : M A) (k : A → M B) :
  emits_only P m → (∀ a, emits_only P (k a)) → emits_only P (m ≫= k).
Proof.
  intros Hm Hk w. unfold mbind, M_bind.
  destruct (Hm w) as (t1 & H1 & HP1). destruct (m w) as [a w1].
  destruct (Hk a w1) as (t2 & H2 & HP2).
  exists (t2 ++ t1). unfold events_since in *. cbn [fst snd] in *. split.
  - rewrite H2, H1. by rewrite app_assoc.
  - intros e He. apply elem_of_app in He as [?|?]; auto.
Qed.

(** The same, when the continuation needs to know something of the value
    it is given. *)
Lemma emits_only_bind_val P (Φ : A → Prop) (m : M A) (k : A → M B) :
  emits_only P m → (∀ w, Φ (m w).1) → (∀ a, Φ a → emits_only P (k a)) →
  emits_only P (m ≫= k).
Proof.
  intros Hm HΦ Hk w. unfold mbind, M_bind.
  destruct (Hm w) as (t1 & H1 & HP1). specialize (HΦ w). destruct (m w) as [a w1].
  destruct (Hk a HΦ w1) as (t2 & H2 & HP2).
  exists (t2 ++ t1). unfold events_since in *. cbn [fst snd] in *. split.
  - rewrite H2, H1. by rewrite app_assoc.
  - intros e He. apply elem_of_app in He as [?|?]; auto.
Qed.

Lemma emits_only_weaken P Q (m : M A) :
  emits_only P m → (∀ e, P e → Q e) → emits_only Q m.
Proof. intros Hm HPQ w. destruct (Hm w) as (t & ? & ?). exists t. auto. Qed.

Lemma emits_only_reading P (r : R A) : emits_only P (reading r).
Proof. intros w. exists []. split; [done|]. intros e He. by apply elem_of_nil in He. Qed.

End Emits.

Lemma emits_only_emit (P : event → Prop) e : P e → emits_only P (emit e).
Proof.
  intros HP w. exists [e]. split; [done|]. intros e' He.
  apply list_elem_of_singleton in He. by subst.
Qed.

Lemma emits_only_defer {A} (P : event → Prop) (d : M unit) (body : M A) :
  emits_only P body → emits_only P d → emits_only P (defer d body).
Proof.
  intros Hb Hd. unfold defer. apply emits_only_bind; [done|]. intros a.
  apply emits_only_bind; [done|]. intros _. apply emits_only_ret.
Qed.

(** A call that adds its own event and nothing else. *)
Lemma emits_only_call {A} (P : event → Prop) (m : M A) e :
  (∀ w, trace (m w).2 = e :: trace w) → P e → emits_only P m.
Proof.
  intros Hm HP w. exists [e]. split; [apply Hm|]. intros e' He.
  apply list_elem_of_singleton in He. by subst.
Qed.

Lemma RemoveAll_trace p w : trace (RemoveAll p w).2 = EvFs OpRemoveAll p :: trace w.
Proof. unfold RemoveAll. reduce. by case_match. Qed.

Lemma Rename_trace p q w : trace (Rename p q w).2 = EvFs OpRename p :: trace w.
Proof. unfold Rename. reduce. split_cases. Qed.

Lemma OpenFileCreate_trace p w : trace (OpenFileCreate p w).2 = EvFs OpCreate p :: trace w.
Proof. unfold OpenFileCreate. reduce. split_cases. Qed.

Lemma Fprintf_trace p s w : trace (Fprintf p s w).2 = EvFs OpWrite p :: trace w.
Proof. unfold Fprintf. reduce. by case_match. Qed.

Lemma MkdirTemp_trace env dir pattern w :
  trace (MkdirTemp env dir pattern w).2 = EvFs OpMkdirTemp dir :: trace w.
Proof. unfold MkdirTemp. reduce. split_cases. Qed.

Lemma elem_of_nil_any {A} (P : A → Prop) : ∀ e, e ∈ @nil A → P e.
Proof. intros e He. by apply elem_of_nil in He. Qed.

Lemma saturate_mono (a b : Z) : a <= b → time.saturate a <= time.saturate b.
Proof.
  unfold time.saturate, time.minDuration, time.maxDuration. intros H.
  repeat case_match; lia.
Qed.

Lemma Sub_mono (t t' u : Z) : t <= t' → time.Sub t u <= time.Sub t' u.
Proof. intros H. apply saturate_mono. lia. Qed.

Ltac not_fs_call := intros (? & ? & [=]).
Ltac not_client_call := intros [[? [=]]|(? & ? & [=])].

Section Further.

Variable env : Env.

(** ** Delete *)

(** X1. A [Delete] whose [RemoveAll] works returns nil, leaves no entry
    at or below the database directory of this model and every other
    entry as it was; it changes nothing when nothing was installed, and
    deleting twice is deleting once. *)
Theorem Delete_removes_only_active (c : curator) (w : World) :
  faults (disk w) OpRemoveAll (DBDirectoryPath env (config c)) = false →
  (Delete env c w).1 = None ∧
  under (DBDirectoryPath env (config c)) (files (disk (Delete env c w).2)) = ∅ ∧
  (∀ k, ¬ DBDirectoryPath env (config c) `prefix_of` k →
        files (disk (Delete env c w).2) !! k = files (disk w) !! k) ∧
  (under (DBDirectoryPath env (config c)) (files (disk w)) = ∅ →
     disk (Delete env c w).2 = disk w) ∧
  disk (Delete env c (Delete env c w).2).2 = disk (Delete env c w).2.
Proof.
  intros Hf. unfold Delete, RemoveAll. reduce. rewrite !Hf. reduce. rewrite ?Hf. reduce.
  split; [done|]. split; [apply under_outside_same|].
  split; [intros k Hk; by apply outside_lookup_apart|]. split.
  - intros Hu. rewrite (outside_id _ _ Hu). clear. destruct w as [[fs ck fa] t]. reflexivity.
  - by rewrite outside_outside.
Qed.

(** X2. [Delete] is for this schema only: the directory of any other
    model version under the same root keeps all its entries. *)
Theorem Delete_spares_other_models (c : curator) (w : World) (v : Z) :
  v ≠ ModelVersion env →
  faults (disk w) OpRemoveAll (DBDirectoryPath env (config c)) = false →
  under (DBRootDir (config c) ++ [Itoa v]) (files (disk (Delete env c w).2))
    = under (DBRootDir (config c) ++ [Itoa v]) (files (disk w)).
Proof.
  intros Hm Hf. unfold Delete, RemoveAll. reduce. rewrite Hf. reduce.
  apply under_outside_apart. apply apart_siblings.
  unfold Itoa. intros Heq. apply Hm. by apply (inj pretty).
Qed.

(** ** Status, and what is left after Delete *)

Lemma Status_err c d :
  db.StatusErr (Status env c d) = None ↔ validate env c d = None.
Proof.
  unfold Status. unfold_M.
  destruct (readDatabaseDescription env _ d) as [[m|]|e] eqn:Hr; cbn; [done|..];
    unfold validate, validateIntegrity; unfold_M; rewrite Hr; done.
Qed.

Lemma Rename_success old new w :
  (Rename old new w).1 = None → old ≠ new →
  files (disk (Rename old new w).2) = moved old new (files (disk w)) ∧
  clock (disk (Rename old new w).2) = clock (disk w) ∧
  faults (disk (Rename old new w).2) = faults (disk w).
Proof.
  unfold Rename. reduce. intros H Hne. revert H.
  split_cases.
  all: by match goal with H : bool_decide (_ = _) = true |- _ =>
         apply bool_decide_eq_true in H end.
Qed.

Lemma activate_success_disk c p w :
  (activate env c p w).1 = None → p ≠ DBDirectoryPath env (config c) →
  ∃ m fs1,
    validateIntegrity env c p (disk w) = Ok m ∧
    (fs1 = files (disk w) ∨ fs1 = outside (DBDirectoryPath env (config c)) (files (disk w))) ∧
    files (disk (activate env c p w).2) = moved p (DBDirectoryPath env (config c)) fs1 ∧
    clock (disk (activate env c p w).2) = clock (disk w) ∧
    faults (disk (activate env c p w).2) = faults (disk w).
Proof.
  intros H Hne. revert H. unfold activate, Delete, RemoveAll. unfold_M. reduce.
  destruct (validateIntegrity env c p (disk w)) as [m|e]; reduce; [|done].
  set (dbDir := DBDirectoryPath env (config c)) in *.
  destruct (negb (IsNotExist (err_of (Stat dbDir (disk w))))); reduce.
  - destruct (faults (disk w) OpRemoveAll dbDir); reduce; [done|].
    match goal with |- context [Rename p dbDir ?wx] =>
      pose proof (Rename_success p dbDir wx) as HR;
      destruct (Rename p dbDir wx) as [[e|] w'] end; reduce; [done|].
    intros _. destruct (HR eq_refl Hne) as (H1 & H2 & H3).
    exists m, (outside dbDir (files (disk w))). eauto 10.
  - match goal with |- context [Rename p dbDir ?wx] =>
      pose proof (Rename_success p dbDir wx) as HR;
      destruct (Rename p dbDir wx) as [[e|] w'] end; reduce; [done|].
    intros _. destruct (HR eq_refl Hne) as (H1 & H2 & H3).
    exists m, (files (disk w)). eauto 10.
Qed.

Lemma apart_ne (p q : path) : apart p q → p ≠ q.
Proof. intros [H _] ->. by apply H. Qed.

(** X3. A successful activation moves the staged directory, entry by
    entry, to the active path: what was at a path below the staged
    directory is afterwards at the same path below the active one,
    nothing is left at or below the staged directory, and entries
    below neither directory are untouched. *)
Theorem activate_promotes_staged (c : curator) (staged : path) (w : World) :
  apart staged (DBDirectoryPath env (config c)) →
  (activate env c staged w).1 = None →
  let fs := files (disk w) in
  let fs' := files (disk (activate env c staged w).2) in
  (∀ s, fs' !! (DBDirectoryPath env (config c) ++ s) = fs !! (staged ++ s)) ∧
  under staged fs' = ∅ ∧
  (∀ k, ¬ staged `prefix_of` k → ¬ DBDirectoryPath env (config c) `prefix_of` k →
        fs' !! k = fs !! k).
Proof.
  intros Hap H. cbv zeta.
  destruct (activate_success_disk c staged w H (apart_ne _ _ Hap))
    as (m & fs1 & _ & Hfs1 & -> & _).
  split; [|split].
  - intros s. rewrite moved_lookup_new.
    destruct Hfs1 as [->| ->]; [done|].
    apply outside_lookup_apart. by apply apart_below.
  - by apply moved_under_old.
  - intros k Hs Hd. rewrite moved_lookup_other by done.
    destruct Hfs1 as [->| ->]; [done|]. by apply outside_lookup_apart.
Qed.

(** Validation looks at two entries only: a directory holding the same
    descriptor and payload validates the same way. *)
Lemma validateIntegrity_transfer c p q d d' m :
  validateIntegrity env c p d = Ok m →
  readable env q d' →
  node_at (files d') (descriptor_path env q) = node_at (files d) (descriptor_path env p) →
  node_at (files d') (payload_path env q) = node_at (files d) (payload_path env p) →
  validateIntegrity env c q d' = Ok m.
Proof.
  unfold readable, descriptor_path, payload_path.
  intros H (Hs & Ho & Hp) Hd Hy. revert H.
  unfold validateIntegrity, readDatabaseDescription, file_Exists, file_ValidateByHash,
    Stat, Open, Decode, read_all.
  unfold_M.
  repeat first
    [ progress rewrite ?Hs, ?Ho, ?Hp, ?Hd, ?Hy
    | progress reduce
    | case_match; simplify_eq/=; try done ].
Qed.

Lemma validateIntegrity_Ok_read c dir d m :
  validateIntegrity env c dir d = Ok m →
  readDatabaseDescription env dir d = Ok (Some m).
Proof.
  unfold validateIntegrity. unfold_M.
  destruct (readDatabaseDescription env dir d) as [[m'|]|e]; [|done..].
  split_cases; by intros [= ->].
Qed.

Lemma validate_None c d :
  validate env c d = None →
  ∃ m, validateIntegrity env c (DBDirectoryPath env (config c)) d = Ok m ∧
       ensureNotStale c (Some m) d = None.
Proof.
  unfold validate. unfold_M.
  destruct (validateIntegrity env c _ d) as [m|e]; [eauto|done].
Qed.

(** Where the descriptor file is not there, no descriptor is read. *)
Lemma readDatabaseDescription_nothing dir d :
  node_at (files d) (descriptor_path env dir) = None →
  (∀ m, readDatabaseDescription env dir d ≠ Ok (Some m)) ∧
  (faults d OpStat (descriptor_path env dir) = false →
     readDatabaseDescription env dir d = Ok None).
Proof.
  unfold descriptor_path, readDatabaseDescription, file_Exists, Stat. unfold_M.
  intros ->. destruct (faults d OpStat _); cbn; [split; [done|]|]; done.
Qed.

(** X4. [Status] reports no error exactly when [validate] passes, and
    then the fields it reports are those of the descriptor that
    [validateIntegrity] accepted, with the database directory as the
    location; whenever it reports an error because no descriptor could
    be read, the other fields are left at their zero values. *)
Theorem Status_reports_validation (c : curator) (d : Disk) :
  let st := Status env c d in
  let dbDir := DBDirectoryPath env (config c) in
  (db.StatusErr st = None ↔ validate env c d = None) ∧
  (∀ m, validateIntegrity env c dbDir d = Ok m →
     db.StatusBuilt st = db.Built m ∧
     db.StatusSchemaVersion st = db.SchemaVersion m ∧
     db.StatusLocation st = dbDir ∧
     db.StatusChecksum st = db.Checksum m ∧
     db.StatusErr st = ensureNotStale c (Some m) d) ∧
  ((∀ m, readDatabaseDescription env dbDir d ≠ Ok (Some m)) →
     db.StatusErr st ≠ None ∧
     db.StatusBuilt st = time.zero ∧ db.StatusSchemaVersion st = "" ∧
     db.StatusLocation st = [] ∧ db.StatusChecksum st = "").
Proof.
  cbv zeta. split; [apply Status_err|]. split.
  - intros m Hv. pose proof (validateIntegrity_Ok_read _ _ _ _ Hv) as Hr.
    unfold Status. unfold_M. rewrite Hr. cbn.
    unfold validate. unfold_M. by rewrite Hv.
  - intros Hn. unfold Status. unfold_M.
    destruct (readDatabaseDescription env _ d) as [[m|]|e]; [by destruct (Hn m)|done..].
Qed.

(** X5. After a [Delete] that succeeded nothing is installed any more:
    [validate] fails, [Status] reports an error and [Reader] returns
    one, whatever [db.NewReader] does; when the stat of the descriptor
    works the descriptor reads as absent and the errors are the
    not-found ones. *)
Theorem Delete_then_nothing_installed (c : curator) (w : World) :
  faults (disk w) OpRemoveAll (DBDirectoryPath env (config c)) = false →
  let dbDir := DBDirectoryPath env (config c) in
  let w' := (Delete env c w).2 in
  validate env c (disk w') ≠ None ∧
  db.StatusErr (Status env c (disk w')) ≠ None ∧
  (Reader env c w').1.2 ≠ None ∧
  (faults (disk w) OpStat (descriptor_path env dbDir) = false →
     readDatabaseDescription env dbDir (disk w') = Ok None ∧
     validate env c (disk w') = Some (ErrMetadataNotFound dbDir) ∧
     db.StatusErr (Status env c (disk w')) = Some (ErrStatusNotFound dbDir)).
Proof.
  intros Hf. cbv zeta.
  assert (under (DBDirectoryPath env (config c)) (files (disk (Delete env c w).2)) = ∅
          ∧ faults (disk (Delete env c w).2) = faults (disk w)) as [Hu Hfa].
  { unfold Delete, RemoveAll. reduce. rewrite Hf. reduce.
    split; [apply under_outside_same|done]. }
  set (w' := (Delete env c w).2) in *.
  pose proof (under_empty_lookup _ (DescriptionFileName env) _ Hu) as Hn.
  destruct (readDatabaseDescription_nothing _ _ Hn) as [Hno Hok].
  assert (validate env c (disk w') ≠ None) as Hv.
  { intros Hv. destruct (validate_None _ _ Hv) as (m & Hm & _).
    by apply validateIntegrity_Ok_read, Hno in Hm. }
  split; [done|]. split; [by rewrite Status_err|]. split.
  - unfold Reader, db_NewReader. unfold_M. reduce.
    destruct (NewReader env _ _); reduce; done.
  - intros Hs. rewrite Hfa in Hok. specialize (Hok Hs). split; [done|].
    unfold Status, validate, validateIntegrity. unfold_M. by rewrite Hok.
Qed.

(** X6. [Reader] returns no error exactly when [db.NewReader] opened the
    database and [validate] passed; it returns no handle exactly when
    [db.NewReader] failed; it changes nothing on disk; and whenever it
    returns no error [Status] reports none either. *)
Theorem Reader_no_error_means_valid (c : curator) (w : World) :
  let r := (Reader env c w).1 in
  let opened := NewReader env (DBDirectoryPath env (config c)) (files (disk w)) in
  (r.2 = None ↔ (∃ s, opened = Ok s) ∧ validate env c (disk w) = None) ∧
  (r.1 = None ↔ ∃ e, opened = Err e) ∧
  disk (Reader env c w).2 = disk w ∧
  (r.2 = None → db.StatusErr (Status env c (disk w)) = None).
Proof.
  cbv zeta. rewrite Status_err.
  unfold Reader, db_NewReader. unfold_M. reduce.
  destruct (NewReader env _ _) as [s|e]; reduce.
  - split; [split; [eauto|by intros [_ ?]]|].
    split; [split; [done|by intros [? ?]]|]. done.
  - split; [split; [done|by intros [[? ?] _]]|].
    split; [split; [eauto|done]|]. done.
Qed.

Lemma ensureNotStale_clock c m d d' :
  clock d' = clock d → ensureNotStale c m d' = ensureNotStale c m d.
Proof.
  intros H. unfold ensureNotStale. unfold_M.
  destruct m; [|done]. case_match; [done|]. reduce. rewrite H. by case_match.
Qed.

Lemma activate_success_lookup c staged w s :
  apart staged (DBDirectoryPath env (config c)) →
  (activate env c staged w).1 = None →
  files (disk (activate env c staged w).2) !! (DBDirectoryPath env (config c) ++ s)
    = files (disk w) !! (staged ++ s).
Proof.
  intros Hap H.
  destruct (activate_success_disk c staged w H (apart_ne _ _ Hap))
    as (m & fs1 & _ & Hfs1 & -> & _).
  rewrite moved_lookup_new.
  destruct Hfs1 as [->| ->]; [done|].
  apply outside_lookup_apart. by apply apart_below.
Qed.

Lemma activate_success_validates c staged w :
  apart staged (DBDirectoryPath env (config c)) →
  readable env (DBDirectoryPath env (config c)) (disk w) →
  (activate env c staged w).1 = None →
  ∃ m, validateIntegrity env c staged (disk w) = Ok m ∧
       validateIntegrity env c (DBDirectoryPath env (config c))
         (disk (activate env c staged w).2) = Ok m.
Proof.
  intros Hap Hrd H.
  pose proof (activate_success_lookup c staged w [DescriptionFileName env] Hap H) as Hd.
  pose proof (activate_success_lookup c staged w [VulnerabilityDBFileName env] Hap H) as Hy.
  destruct (activate_success_disk c staged w H (apart_ne _ _ Hap))
    as (m & fs1 & Hm & _ & _ & Hck & Hfa).
  exists m. split; [done|].
  apply (validateIntegrity_transfer c staged _ (disk w)); [done| |..].
  - unfold readable in *. by rewrite Hfa.
  - unfold descriptor_path. by rewrite !node_at_snoc.
  - unfold payload_path. by rewrite !node_at_snoc.
Qed.

Lemma validate_after c d m :
  validateIntegrity env c (DBDirectoryPath env (config c)) d = Ok m →
  validate env c d = ensureNotStale c (Some m) d.
Proof. intros H. unfold validate. unfold_M. by rewrite H. Qed.

(** X7. [activate] checks integrity, not age: after a successful
    activation the active directory passes [validateIntegrity] with the
    descriptor that was validated in the staged directory, and
    [validate] answers what [ensureNotStale] says of that descriptor,
    so a database that is already too old is installed and then
    rejected by [validate]. *)
Theorem activate_installs_validated (c : curator) (staged : path) (w : World) :
  apart staged (DBDirectoryPath env (config c)) →
  readable env (DBDirectoryPath env (config c)) (disk w) →
  (activate env c staged w).1 = None →
  ∃ m, validateIntegrity env c staged (disk w) = Ok m ∧
       validateIntegrity env c (DBDirectoryPath env (config c))
         (disk (activate env c staged w).2) = Ok m ∧
       validate env c (disk (activate env c staged w).2)
         = ensureNotStale c (Some m) (disk w) ∧
       (ValidateAge (config c) = true →
        time.Sub (clock (disk w)) (db.Built m) > MaxAllowedBuiltAge (config c) →
        validate env c (disk (activate env c staged w).2) ≠ None).
Proof.
  intros Hap Hrd H.
  destruct (activate_success_validates c staged w Hap Hrd H) as (m & Hm & Hv).
  exists m. split; [done|]. split; [done|].
  rewrite (validate_after _ _ _ Hv).
  rewrite (ensureNotStale_clock c (Some m) (disk w) _ (activate_clock env c staged w)).
  split; [done|]. intros Ha Hold. unfold ensureNotStale, time.UTC. unfold_M.
  rewrite Ha. cbn [negb]. case_match; [done|lia].
Qed.

Lemma isUpdateCheckAllowed_no_marker c w :
  node_at (files (disk w)) (marker_path env c) = None →
  (isUpdateCheckAllowed env c w).1 = true.
Proof.
  unfold marker_path, isUpdateCheckAllowed, durationSinceUpdateCheck, Stat, Open.
  unfold_M. intros H.
  repeat first
    [ progress rewrite ?H | progress reduce | case_match; simplify_eq/=; try done ].
Qed.

(** X8. The marker lives inside the directory that [activate] replaces:
    after a successful activation the marker path holds whatever the
    staged directory held under that name, so when the staged directory
    carried no marker the earlier check is forgotten and the next update
    check is allowed. *)
Theorem activate_resets_throttle (c : curator) (staged : path) (w : World) :
  apart staged (DBDirectoryPath env (config c)) →
  (activate env c staged w).1 = None →
  let w' := (activate env c staged w).2 in
  node_at (files (disk w')) (marker_path env c)
    = node_at (files (disk w)) (staged ++ [lastUpdateCheckFileName]) ∧
  (node_at (files (disk w)) (staged ++ [lastUpdateCheckFileName]) = None →
     (isUpdateCheckAllowed env c w').1 = true).
Proof.
  intros Hap H. cbv zeta.
  assert (node_at (files (disk (activate env c staged w).2)) (marker_path env c)
          = node_at (files (disk w)) (staged ++ [lastUpdateCheckFileName])) as Hm.
  { unfold marker_path. rewrite !node_at_snoc. by apply activate_success_lookup. }
  split; [done|]. intros Hn. apply isUpdateCheckAllowed_no_marker. by rewrite Hm.
Qed.

(** ** Calls on the tree *)

Lemma emits_only_activate (P : event → Prop) c p :
  (∀ e, progress_or_log e → P e) →
  P (EvFs OpRemoveAll (DBDirectoryPath env (config c))) → P (EvFs OpRename p) →
  emits_only P (activate env c p).
Proof.
  intros Hq H4 H5. unfold activate.
  apply emits_only_defer; [|by apply emits_only_emit, Hq].
  apply emits_only_bind; [by apply emits_only_emit, Hq|]. intros _.
  apply emits_only_bind; [apply emits_only_reading|].
  intros [m|e]; [|apply emits_only_ret].
  apply emits_only_bind; [by apply emits_only_emit, Hq|]. intros _.
  apply emits_only_bind; [apply emits_only_reading|]. intros st.
  apply emits_only_bind.
  { case_match; [|apply emits_only_ret].
    eapply emits_only_call; [apply RemoveAll_trace|done]. }
  intros [e|]; [apply emits_only_ret|].
  eapply emits_only_call; [apply Rename_trace|done].
Qed.

Lemma emits_only_setLast (P : event → Prop) c :
  (∀ e, progress_or_log e → P e) →
  P (EvFs OpCreate (marker_path env c)) → P (EvFs OpWrite (marker_path env c)) →
  emits_only P (setLastSuccessfulUpdateCheck env c).
Proof.
  intros Hq H1 H2. unfold setLastSuccessfulUpdateCheck. fold (marker_path env c).
  eapply (emits_only_bind_val _ (λ a, ∀ fh, a = Ok fh → fh = marker_path env c)).
  - eapply emits_only_call; [apply OpenFileCreate_trace|done].
  - intros w fh. unfold OpenFileCreate. reduce. split_cases; by intros [= <-].
  - intros [fh|e] Hfh; [|by apply emits_only_emit, Hq]. rewrite (Hfh fh eq_refl).
    apply emits_only_bind; [apply emits_only_reading|]. intros t.
    apply emits_only_bind; [|intros _; apply emits_only_ret].
    eapply emits_only_call; [apply Fprintf_trace|done].
Qed.


Lemma emits_only_isUpdateCheckAllowed (P : event → Prop) c :
  (∀ e, progress_or_log e → P e) → emits_only P (isUpdateCheckAllowed env c).
Proof.
  intros Hq. unfold isUpdateCheckAllowed, durationSinceUpdateCheck. case_match.
  - apply emits_only_bind; [by apply emits_only_emit, Hq|]. intros _.
    apply emits_only_ret.
  - apply emits_only_bind.
    + apply emits_only_bind; [apply emits_only_reading|]. intros st. case_match.
      * apply emits_only_bind; [by apply emits_only_emit, Hq|]. intros _.
        apply emits_only_ret.
      * apply emits_only_bind; [apply emits_only_reading|].
        intros [fh|e]; [|apply emits_only_ret].
        repeat case_match; try apply emits_only_ret.
        apply emits_only_bind; [apply emits_only_reading|]. intros t.
        apply emits_only_ret.
    + intros [[el|]|e]; try apply emits_only_ret.
      apply emits_only_bind; [by apply emits_only_emit, Hq|]. intros _.
      apply emits_only_ret.
Qed.

(** The events of a run of [Update]: those of the throttle, and when the
    check is allowed the publication, the events of the body, and the
    two completion signals. *)
Lemma Update_events (P : event → Prop) c w :
  (∀ e, progress_or_log e → P e) →
  (∀ current, P (EvIsUpdateAvailable current)) →
  (∀ a p, P (EvDownload a p)) →
  P (EvFs OpRemoveAll (DBDirectoryPath env (config c))) →
  (∀ dest, P (EvFs OpRename dest)) →
  P (EvFs OpCreate (marker_path env c)) → P (EvFs OpWrite (marker_path env c)) →
  ∃ before after,
    (∀ e, e ∈ before → P e) ∧ (∀ e, e ∈ after → P e) ∧
    events_since w (Update env c w).2
      (if (isUpdateCheckAllowed env c w).1
       then EvImportCompleted :: EvDownloadCompleted :: after ++ EvPublish :: before
       else before).
Proof.
  intros Hq Hi Hd Hr Hn Hc Hw.
  destruct (emits_only_isUpdateCheckAllowed P c Hq w) as (t0 & Ht0 & HP0).
  unfold Update. unfold mbind at 1. unfold M_bind at 1.
  destruct (isUpdateCheckAllowed env c w) as [al w1]. cbn [fst snd] in *.
  destruct al; cbn [negb].
  2: { exists t0, []. split; [done|]. split; [apply elem_of_nil_any|done]. }
  match goal with |- context [defer mon_SetCompleted ?b] => set (body := b) end.
  assert (emits_only P body) as Hb.
  { subst body.
    apply emits_only_bind; [apply emits_only_reading|].
    intros [current|e]; [|apply emits_only_ret].
    apply emits_only_bind; [by apply emits_only_emit, Hq|]. intros _.
    apply emits_only_bind; [eapply emits_only_call; [by intros w0|apply Hi]|].
    intros [update checkErr].
    apply emits_only_bind.
    { destruct checkErr; [|apply emits_only_ret].
      apply emits_only_bind; [by apply emits_only_emit, Hq|]. intros _.
      by apply emits_only_emit, Hq. }
    intros _. destruct update as [u|].
    - apply emits_only_bind; [by apply emits_only_emit, Hq|]. intros _.
      apply emits_only_bind; [by apply emits_only_emit, Hq|]. intros _.
      apply emits_only_bind; [eapply emits_only_call; [by intros w0|apply Hd]|].
      intros [dest|e]; [|apply emits_only_ret].
      apply emits_only_bind; [by apply emits_only_activate|].
      intros [e|]; [apply emits_only_ret|].
      apply emits_only_bind; [by apply emits_only_setLast|]. intros _.
      destruct current;
        (apply emits_only_bind; [by apply emits_only_emit, Hq|]; intros _;
         apply emits_only_ret).
    - apply emits_only_bind.
      { destruct checkErr; [apply emits_only_ret|by apply emits_only_setLast]. }
      intros _. apply emits_only_bind; [by apply emits_only_emit, Hq|]. intros _.
      apply emits_only_ret. }
  destruct (Hb (add_event EvPublish w1)) as (t & Ht & HP).
  exists t0, t. split; [done|]. split; [done|].
  unfold events_since in *. unfold_M. reduce.
  destruct (body (add_event EvPublish w1)) as [a w2]. reduce. cbn [fst snd] in Ht.
  rewrite Ht. reduce. rewrite Ht0. cbn [app]. by rewrite <- app_assoc.
Qed.

(** The events of a run of [Import]. *)
Lemma Import_events (P : event → Prop) c archive w :
  (∀ e, progress_or_log e → P e) →
  P (EvFs OpMkdirTemp (DBRootDir (config c))) →
  P (EvFs OpRemoveAll (DBDirectoryPath env (config c))) →
  (∀ tempDir, parent tempDir = DBRootDir (config c) →
     P (EvUnarchive archive tempDir) ∧ P (EvFs OpRename tempDir) ∧
     P (EvFs OpRemoveAll tempDir)) →
  ∃ t, (∀ e, e ∈ t → P e) ∧
    events_since w (Import env c archive w).2
      (EvImportCompleted :: EvDownloadCompleted :: t ++ [EvStage "unarchiving"; EvPublish]).
Proof.
  intros Hq Hm Hr Ht.
  unfold Import.
  match goal with |- context [defer mon_SetCompleted ?b] => set (body := b) end.
  assert (emits_only P body) as Hb.
  { subst body.
    eapply (emits_only_bind_val _ (λ a, ∀ p, a = Ok p → parent p = DBRootDir (config c))).
    - eapply emits_only_call; [apply MkdirTemp_trace|done].
    - intros w0 p. unfold MkdirTemp. reduce.
      split_cases; intros [= <-]; apply removelast_last.
    - intros [tempDir|e] Hp; [|apply emits_only_ret].
      destruct (Ht tempDir (Hp _ eq_refl)) as (H1 & H2 & H3).
      apply emits_only_bind; [eapply emits_only_call; [by intros w0|done]|].
      intros [e|]; [apply emits_only_ret|].
      apply emits_only_bind; [by apply emits_only_emit, Hq|]. intros _.
      apply emits_only_bind; [by apply emits_only_activate|].
      intros [e|]; [|apply emits_only_ret].
      apply emits_only_bind; [|intros _; apply emits_only_ret].
      unfold removeAllOrLog.
      apply emits_only_bind; [eapply emits_only_call; [apply RemoveAll_trace|done]|].
      intros [e'|]; [by apply emits_only_emit, Hq|apply emits_only_ret]. }
  destruct (Hb (add_event (EvStage "unarchiving") (add_event EvPublish w))) as (t & Hev & HP).
  exists t. split; [done|].
  unfold events_since in *. unfold_M. reduce.
  destruct (body _) as [a w2]. reduce. cbn [fst snd] in Hev.
  rewrite Hev. reduce. cbn [app]. by rewrite <- app_assoc.
Qed.

(** X9. The only calls on the tree that [activate] issues are the
    removal of the active directory and the rename of the staged one:
    it creates and writes nothing, and removes nothing else. *)
Theorem activate_tree_calls (c : curator) (staged : path) :
  emits_only (activate_call env c staged) (activate env c staged).
Proof.
  apply emits_only_activate; unfold activate_call; [|by left|by right].
  intros e He. destruct e; try done; not_fs_call.
Qed.

(** X10. [Update] removes nothing but the active directory (a staged
    download is never removed), creates and writes nothing but the
    marker, renames only what the download gave it, and unpacks no
    archive. *)
Theorem Update_tree_calls (c : curator) :
  emits_only (update_call env c) (Update env c).
Proof.
  intros w.
  assert (∀ e, progress_or_log e → update_call env c e) as Hq.
  { intros e He. destruct e; try done; split; try not_fs_call; done. }
  destruct (Update_events (update_call env c) c w Hq) as (t0 & t & H0 & H1 & Hev).
  - intros cur. split; [not_fs_call|done].
  - intros a p. split; [not_fs_call|done].
  - split; [by left|done].
  - intros dest. split; [right; left; eauto|done].
  - split; [by right; right; left|done].
  - split; [by right; right; right|done].
  - eexists. split; [exact Hev|]. intros e He.
    destruct (isUpdateCheckAllowed env c w).1; [|by apply H0].
    rewrite !elem_of_cons, elem_of_app, elem_of_cons in He.
    destruct He as [->|[->|[?|[->|?]]]]; auto; try by apply Hq.
    split; [not_fs_call|done].
Qed.


(** X12. Every [Import], and every [Update] that the throttle lets
    through, publishes the progress object exactly once and ends, on
    every way out, with both completion signals; an [Update] that the
    throttle stops publishes nothing. *)
Theorem monitor_published_once_and_completed (c : curator) :
  (∀ archive w, monitor_completed w (Import env c archive w).2) ∧
  (∀ w, (isUpdateCheckAllowed env c w).1 = true →
        monitor_completed w (Update env c w).2) ∧
  (∀ w, (isUpdateCheckAllowed env c w).1 = false →
        ∃ new, events_since w (Update env c w).2 new ∧ EvPublish ∉ new).
Proof.
  assert (∀ e, progress_or_log e → e ≠ EvPublish) as Hq by (by intros [] ?).
  split; [|split].
  - intros archive w.
    destruct (Import_events (λ e, e ≠ EvPublish) c archive w) as (t & H1 & Hev);
      try done.
    exists [], (t ++ [EvStage "unarchiving"]). split.
    + by rewrite <- app_assoc.
    + split; [|apply not_elem_of_nil].
      rewrite not_elem_of_app, not_elem_of_cons. split; [|split; [done|apply not_elem_of_nil]].
      intros Hin. by apply (H1 _ Hin).
  - intros w Ha.
    destruct (Update_events (λ e, e ≠ EvPublish) c w) as (t0 & t & H0 & H1 & Hev);
      try done.
    rewrite Ha in Hev. exists t0, t. split; [done|].
    split; intros Hin; [by apply (H1 _ Hin)|by apply (H0 _ Hin)].
  - intros w Ha.
    destruct (Update_events (λ e, e ≠ EvPublish) c w) as (t0 & t & H0 & H1 & Hev);
      try done.
    rewrite Ha in Hev. exists t0. split; [done|]. intros Hin. by apply (H0 _ Hin).
Qed.

(** ** More ways through [Update] and [Import] *)

Lemma Update_denied c w :
  (isUpdateCheckAllowed env c w).1 = false → Update env c w = ((false, None), w).
Proof.
  intros H. pose proof (isUpdateCheckAllowed_denied _ _ _ H) as Hs.
  unfold Update. unfold mbind at 1. unfold M_bind at 1.
  destruct (isUpdateCheckAllowed env c w) as [a w1]. simplify_eq/=. reflexivity.
Qed.

Lemma Update_unreadable c w e :
  (isUpdateCheckAllowed env c w).1 = true →
  readDatabaseDescription env (DBDirectoryPath env (config c)) (disk w) = Err e →
  Update env c w =
    ((false, Some (ErrReadCurrent e)),
     add_event EvImportCompleted (add_event EvDownloadCompleted
       (add_event EvPublish (isUpdateCheckAllowed env c w).2))).
Proof.
  intros Ha Hr. pose proof (isUpdateCheckAllowed_disk env c w) as Hd.
  unfold Update. unfold_M.
  destruct (isUpdateCheckAllowed env c w) as [al w1]. cbn [fst snd] in *. subst al.
  cbn [negb]. reduce. rewrite Hd, Hr. reflexivity.
Qed.

(** X13. When the current descriptor cannot be read, an [Update] that
    the throttle lets through returns [false] with the wrapped read
    error; it publishes and completes its progress object and does
    nothing else: the client is not asked and the disk is as it was. *)
Theorem Update_read_failure (c : curator) (w : World) (e : error) :
  (isUpdateCheckAllowed env c w).1 = true →
  readDatabaseDescription env (DBDirectoryPath env (config c)) (disk w) = Err e →
  (Update env c w).1 = (false, Some (ErrReadCurrent e)) ∧
  disk (Update env c w).2 = disk w ∧
  ∃ new, events_since w (Update env c w).2 new ∧
         ∀ ev, ev ∈ new → ¬ asks_client ev ∧ ¬ is_fs_call ev.
Proof.
  intros Ha Hr. rewrite (Update_unreadable c w e Ha Hr). reduce.
  split; [done|]. split; [apply isUpdateCheckAllowed_disk|].
  destruct (emits_only_isUpdateCheckAllowed
              (λ ev, ¬ asks_client ev ∧ ¬ is_fs_call ev) c) with (w := w)
    as (t0 & Ht0 & HP0).
  { intros ev Hev. destruct ev; try done; (split; [not_client_call|not_fs_call]). }
  exists (EvImportCompleted :: EvDownloadCompleted :: EvPublish :: t0). split.
  - unfold events_since in *. reduce. by rewrite Ht0.
  - intros ev Hev. rewrite !elem_of_cons in Hev.
    destruct Hev as [->|[->|[->|?]]]; auto; (split; [not_client_call|not_fs_call]).
Qed.

(** X14. [Import] does not create the root directory: where it is
    missing the temporary directory cannot be made, [Import] returns
    that error wrapped, nothing is unpacked and the disk is as it was. *)
Theorem Import_without_root (c : curator) (archive : string) (w : World) :
  is_dir (files (disk w)) (DBRootDir (config c)) = false →
  (∃ e, (Import env c archive w).1 = Some (ErrTempDir e)) ∧
  disk (Import env c archive w).2 = disk w ∧
  events_since w (Import env c archive w).2
    [EvImportCompleted; EvDownloadCompleted; EvFs OpMkdirTemp (DBRootDir (config c));
     EvStage "unarchiving"; EvPublish].
Proof.
  intros Hd. unfold Import, MkdirTemp, events_since. unfold_M. reduce. rewrite Hd.
  destruct (faults (disk w) OpMkdirTemp (DBRootDir (config c))); reduce; eauto.
Qed.

Lemma import_name_distinct suffix :
  import_pattern env +:+ suffix ≠ Itoa (ModelVersion env).
Proof.
  unfold import_pattern. intros H. apply (f_equal String.length) in H.
  rewrite !string_length_app in H. cbn in H. lia.
Qed.

Lemma activate_success_other c staged w k :
  apart staged (DBDirectoryPath env (config c)) →
  (activate env c staged w).1 = None →
  ¬ staged `prefix_of` k → ¬ DBDirectoryPath env (config c) `prefix_of` k →
  files (disk (activate env c staged w).2) !! k = files (disk w) !! k.
Proof.
  intros Hap H Hs Hd.
  destruct (activate_success_disk c staged w H (apart_ne _ _ Hap))
    as (m & fs1 & _ & Hfs1 & -> & _).
  rewrite moved_lookup_other by done.
  destruct Hfs1 as [->| ->]; [done|]. by apply outside_lookup_apart.
Qed.

(** X15. When [Import] returns no error, this is what happened: the
    root was a directory and the name [os.MkdirTemp] picked in it was
    free; the archive was unpacked into that temporary directory without
    error; the descriptor that [validateIntegrity] accepted there is the
    one it accepts in the active directory afterwards; every entry the
    unpacking left below the temporary directory is afterwards at the
    same place below the active directory; nothing is left at or below
    the temporary directory; and entries below neither directory are as
    the unpacking left them. *)
Theorem Import_installs_validated (c : curator) (archive : string) (w : World) :
  readable env (DBDirectoryPath env (config c)) (disk w) →
  (Import env c archive w).1 = None →
  let dbDir := DBDirectoryPath env (config c) in
  let tempDir :=
    DBRootDir (config c) ++
      [import_pattern env +:+ tempSuffix env (files (disk w)) (DBRootDir (config c))] in
  let unpacked := Unarchive env archive tempDir (<[tempDir := Dir]> (files (disk w))) in
  let w' := (Import env c archive w).2 in
  is_dir (files (disk w)) (DBRootDir (config c)) = true ∧
  node_at (files (disk w)) tempDir = None ∧
  unpacked.2 = None ∧
  (∃ m, validateIntegrity env c tempDir (disk (set_files unpacked.1 w)) = Ok m ∧
        validateIntegrity env c dbDir (disk w') = Ok m) ∧
  (∀ s, files (disk w') !! (dbDir ++ s) = unpacked.1 !! (tempDir ++ s)) ∧
  under tempDir (files (disk w')) = ∅ ∧
  (∀ k, ¬ tempDir `prefix_of` k → ¬ dbDir `prefix_of` k →
        files (disk w') !! k = unpacked.1 !! k).
Proof.
  intros Hrd. cbv zeta.
  unfold Import, MkdirTemp, archiver_Unarchive. fold (import_pattern env).
  unfold_M. reduce.
  destruct (faults (disk w) OpMkdirTemp (DBRootDir (config c))); reduce; [done|].
  destruct (is_dir (files (disk w)) (DBRootDir (config c))); reduce; [|done].
  set (tempDir := DBRootDir (config c) ++
         [import_pattern env +:+ tempSuffix env (files (disk w)) (DBRootDir (config c))]).
  destruct (node_at (files (disk w)) tempDir); reduce; [done|].
  destruct (Unarchive env archive tempDir (<[tempDir:=Dir]> (files (disk w))))
    as [fs2 [e|]]; reduce; [done|].
  match goal with |- context [activate env c tempDir ?w0] => set (wa := w0) end.
  assert (apart tempDir (DBDirectoryPath env (config c))) as Hap.
  { apply apart_siblings, import_name_distinct. }
  assert (readable env (DBDirectoryPath env (config c)) (disk wa)) as Hrd' by done.
  pose proof (activate_success_validates c tempDir wa Hap Hrd') as Hv.
  pose proof (activate_success_disk c tempDir wa) as Hs.
  pose proof (λ s, activate_success_lookup c tempDir wa s Hap) as Hl.
  pose proof (λ k, activate_success_other c tempDir wa k Hap) as Ho.
  destruct (activate env c tempDir wa) as [[e|] w2]; reduce.
  { by destruct (removeAllOrLog tempDir w2) as [[] ?]. }
  intros _. destruct (Hv eq_refl) as (m & Hm & Hm').
  destruct (Hs eq_refl (apart_ne _ _ Hap)) as (_ & fs1 & _ & _ & Hfs & _).
  cbn [fst snd] in *.
  split; [done|]. split; [done|]. split; [done|].
  split; [by exists m|].
  split; [intros s; by apply Hl|].
  split; [rewrite Hfs; by apply moved_under_old|].
  intros k Hk1 Hk2. by apply Ho.
Qed.

Lemma activate_None_validated c p w :
  (activate env c p w).1 = None → ∃ m, validateIntegrity env c p (disk w) = Ok m.
Proof.
  unfold activate. unfold_M. reduce.
  destruct (validateIntegrity env c p (disk w)) as [m|e]; [eauto|done].
Qed.

(** Recording a check touches the marker and nothing else. *)
Lemma setLast_frame c w :
  clock (disk (setLastSuccessfulUpdateCheck env c w).2) = clock (disk w) ∧
  faults (disk (setLastSuccessfulUpdateCheck env c w).2) = faults (disk w) ∧
  ∀ k, k ≠ marker_path env c →
    files (disk (setLastSuccessfulUpdateCheck env c w).2) !! k = files (disk w) !! k.
Proof.
  unfold setLastSuccessfulUpdateCheck, OpenFileCreate, Fprintf. unfold_M. reduce.
  fold (marker_path env c).
  split_cases; (split; [done|]); (split; [done|]); intros k Hk;
    by rewrite ?lookup_insert_ne.
Qed.

(** X16. [Update] answers [true] only after it installed something: the
    error is then nil, the throttle let the check through, the client
    offered a candidate, the download gave a directory that passed
    [validateIntegrity], its activation succeeded and the check was
    recorded; and when that directory was apart from the active one the
    active directory afterwards passes [validateIntegrity] with the
    descriptor of the download. *)
Theorem Update_true_means_activated (c : curator) (w : World) :
  (Update env c w).1.1 = true →
  (Update env c w).1.2 = None ∧
  (isUpdateCheckAllowed env c w).1 = true ∧
  ∃ current u checkErr dest m,
    readDatabaseDescription env (DBDirectoryPath env (config c)) (disk w) = Ok current ∧
    IsUpdateAvailable (client c) current = (Some u, checkErr) ∧
    let dl := Download (client c) u (parent (DBRootDir (config c))) (files (disk w)) in
    dl.2 = Ok dest ∧
    validateIntegrity env c dest (disk (set_files dl.1 w)) = Ok m ∧
    (activate env c dest (set_files dl.1 w)).1 = None ∧
    recorded env c w (Update env c w).2 ∧
    (apart dest (DBDirectoryPath env (config c)) →
     readable env (DBDirectoryPath env (config c)) (disk w) →
     marker_name_distinct env →
       validateIntegrity env c (DBDirectoryPath env (config c)) (disk (Update env c w).2)
         = Ok m).
Proof.
  intros Ht.
  destruct (isUpdateCheckAllowed env c w).1 eqn:Ha.
  2: { rewrite (Update_denied c w Ha) in Ht. done. }
  destruct (readDatabaseDescription env (DBDirectoryPath env (config c)) (disk w))
    as [current|e] eqn:Hr.
  2: { rewrite (Update_unreadable c w e Ha Hr) in Ht. done. }
  destruct (IsUpdateAvailable (client c) current) as [update checkErr] eqn:Hc.
  destruct (Update_paths env c w current update checkErr Ha Hr Hc) as (H1 & H2 & H3).
  destruct update as [u|].
  2: { destruct checkErr as [ce|].
       - destruct (H2 eq_refl) as (Hres & _); [done|]. by rewrite Hres in Ht.
       - destruct (H1 eq_refl eq_refl) as (Hres & _). by rewrite Hres in Ht. }
  destruct (H3 u eq_refl) as [H4 H5]. clear H1 H2 H3.
  destruct (Download (client c) u (parent (DBRootDir (config c))) (files (disk w)))
    as [fs' [dest|e]] eqn:Hdl; cbn [fst snd] in *.
  2: { destruct (H4 e eq_refl) as (Hres & _). by rewrite Hres in Ht. }
  destruct (H5 dest eq_refl) as [H6 H7]. clear H4 H5.
  destruct (activate env c dest (set_files fs' w)).1 as [e|] eqn:Hact.
  { destruct (H6 e eq_refl) as (Hres & _). by rewrite Hres in Ht. }
  destruct (H7 eq_refl) as (Hres & (new & [Hev _] & Hin) & Hdisk). clear H6 H7.
  destruct (activate_None_validated _ _ _ Hact) as [m Hm].
  rewrite Hres. split; [done|]. split; [done|].
  exists current, u, checkErr, dest, m. cbv zeta. rewrite Hdl. cbn [fst snd].
  split; [done|]. split; [done|]. split; [done|]. split; [done|]. split; [done|].
  split; [by exists new|].
  intros Hap Hrd [Hn1 Hn2].
  destruct (activate_success_validates c dest (set_files fs' w) Hap Hrd Hact)
    as (m' & Hm' & Hv).
  assert (m' = m) as -> by congruence.
  rewrite Hdisk.
  destruct (setLast_frame c (activate env c dest (set_files fs' w)).2) as (_ & Hfa & Hfr).
  apply (validateIntegrity_transfer c (DBDirectoryPath env (config c)) _ _ _ _ Hv).
  - unfold readable in *. rewrite Hfa, activate_faults. done.
  - unfold descriptor_path, marker_path in *. rewrite !node_at_snoc. apply Hfr.
    intros Heq. by apply app_inv_head in Heq as [= ?].
  - unfold payload_path, marker_path in *. rewrite !node_at_snoc. apply Hfr.
    intros Heq. by apply app_inv_head in Heq as [= ?].
Qed.

(** ** Time *)

(** X17. Staleness only grows with time: a database accepted at some
    time is accepted at every earlier time, and with a maximum age that
    is not negative a database built in the future is never stale. *)
Theorem ensureNotStale_monotone (c : curator) (m : db.Description) (d d' : Disk) :
  clock d <= clock d' →
  (ensureNotStale c (Some m) d' = None → ensureNotStale c (Some m) d = None) ∧
  (0 <= MaxAllowedBuiltAge (config c) → clock d <= db.Built m →
     ensureNotStale c (Some m) d = None).
Proof.
  intros Hle. unfold ensureNotStale, time.UTC. unfold_M.
  destruct (ValidateAge (config c)); cbn [negb]; [|done].
  pose proof (Sub_mono _ _ (db.Built m) Hle) as Hs. split.
  - repeat case_match; try done; lia.
  - intros Hmax Hb.
    assert (time.Sub (clock d) (db.Built m) <= 0).
    { unfold time.Sub, time.saturate, time.minDuration, time.maxDuration.
      repeat case_match; lia. }
    case_match; [lia|done].
Qed.

Lemma same_tree_Stat p d d' :
  files d' = files d → faults d' = faults d → Stat p d' = Stat p d.
Proof. intros Hf Ho. unfold Stat. by rewrite Hf, Ho. Qed.

Lemma same_tree_Open p d d' :
  files d' = files d → faults d' = faults d → Open p d' = Open p d.
Proof. intros Hf Ho. unfold Open. by rewrite Hf, Ho. Qed.

Lemma isUpdateCheckAllowed_holds c w t :
  UpdateCheckMaxFrequency (config c) ≠ 0 →
  marker_holds env c (disk w) t →
  (isUpdateCheckAllowed env c w).1
    = (time.Sub (clock (disk w)) t >? UpdateCheckMaxFrequency (config c)).
Proof.
  intros Hf Ht. unfold isUpdateCheckAllowed. unfold mbind, M_bind.
  destruct (Z.eqb_spec (UpdateCheckMaxFrequency (config c)) 0) as [|_]; [done|].
  by rewrite (durationSince_holds _ _ _ _ Ht).
Qed.

(** X18. The throttle only opens with time: with the same tree, a check
    that is allowed at some time is allowed at every later time. *)
Theorem isUpdateCheckAllowed_monotone (c : curator) (w w' : World) :
  files (disk w') = files (disk w) → faults (disk w') = faults (disk w) →
  clock (disk w) <= clock (disk w') →
  (isUpdateCheckAllowed env c w).1 = true →
  (isUpdateCheckAllowed env c w').1 = true.
Proof.
  intros Hf Ho Hle.
  pose proof (same_tree_Stat (marker_path env c) _ _ Hf Ho) as HS.
  pose proof (same_tree_Open (marker_path env c) _ _ Hf Ho) as HO.
  destruct (Z.eq_dec (UpdateCheckMaxFrequency (config c)) 0) as [Hz|Hz].
  { intros _. unfold isUpdateCheckAllowed. by rewrite Hz. }
  destruct (marker_cases env c (disk w')) as [Ha|[Hu|[t Ht]]].
  - intros _. by apply isUpdateCheckAllowed_absent.
  - intros _. unfold isUpdateCheckAllowed. unfold mbind, M_bind.
    destruct (UpdateCheckMaxFrequency (config c) =? 0); [done|].
    by destruct (durationSince_unreadable _ _ _ Hu) as [e ->].
  - assert (marker_holds env c (disk w) t) as Ht'.
    { unfold marker_holds in *. by rewrite <- HS, <- HO. }
    rewrite (isUpdateCheckAllowed_holds c w t Hz Ht').
    rewrite (isUpdateCheckAllowed_holds c w' t Hz Ht).
    pose proof (Sub_mono _ _ t Hle). lia.
Qed.

(** What the marker holds once a check was recorded. *)
Lemma setLast_marker_holds c w t :
  marker_writable env c (disk w) → marker_readable env c (disk w) →
  reads_back env (clock (disk w)) t →
  marker_holds env c (disk (setLastSuccessfulUpdateCheck env c w).2) t.
Proof.
  intros (Hd & Hn & Hc & Hw) (Hs & Ho) (s & Hsc & Hp & Hz).
  pose proof (setLast_writes env c w Hd Hn Hc Hw) as Hm.
  destruct (setLast_frame c w) as (_ & Hfa & _).
  unfold marker_holds, Stat, Open. rewrite !Hfa, Hs, Ho.
  unfold marker_path in *. rewrite !node_at_snoc, Hm. split; [done|].
  exists (File (FormatRFC3339 env (clock (disk w)))), s.
  split; [done|]. split; [|done]. unfold Fscanf. by cbn.
Qed.

(** X19. A recorded check throttles the next one: after
    [setLastSuccessfulUpdateCheck] on a marker that can be written and
    read back, the marker holds the time of the call, and with that
    tree a later check is allowed exactly when more than the maximum
    frequency has passed since. *)
Theorem recorded_check_throttles (c : curator) (w : World) (t : Z) :
  marker_writable env c (disk w) → marker_readable env c (disk w) →
  reads_back env (clock (disk w)) t →
  UpdateCheckMaxFrequency (config c) ≠ 0 →
  let w1 := (setLastSuccessfulUpdateCheck env c w).2 in
  marker_holds env c (disk w1) t ∧
  ∀ w', files (disk w') = files (disk w1) → faults (disk w') = faults (disk w) →
    ((isUpdateCheckAllowed env c w').1 = true ↔
     time.Sub (clock (disk w')) t > UpdateCheckMaxFrequency (config c)).
Proof.
  intros Hwr Hrd Hrb Hz. cbv zeta.
  pose proof (setLast_marker_holds c w t Hwr Hrd Hrb) as Hh.
  split; [done|]. intros w' Hf Ho.
  destruct (setLast_frame c w) as (_ & Hfa & _).
  assert (marker_holds env c (disk w') t) as Hh'.
  { unfold marker_holds in *.
    rewrite (same_tree_Stat _ _ _ Hf (eq_trans Ho (eq_sym Hfa))).
    by rewrite (same_tree_Open _ _ _ Hf (eq_trans Ho (eq_sym Hfa))). }
  rewrite (isUpdateCheckAllowed_holds c w' t Hz Hh'). lia.
Qed.

(** X20. Two updates in a row: after an [Update] that asked the client,
    was offered nothing and recorded the check, a second [Update] on the
    resulting tree within the maximum frequency is stopped by the
    throttle: it returns [(false, nil)] and leaves the world as it is,
    so the client is not asked again. *)
Theorem Update_then_throttled
    (c : curator) (w : World) (current : option db.Description) (t : Z) :
  (isUpdateCheckAllowed env c w).1 = true →
  readDatabaseDescription env (DBDirectoryPath env (config c)) (disk w) = Ok current →
  IsUpdateAvailable (client c) current = (None, None) →
  marker_writable env c (disk w) → marker_readable env c (disk w) →
  reads_back env (clock (disk w)) t →
  UpdateCheckMaxFrequency (config c) ≠ 0 →
  (Update env c w).1 = (false, None) ∧
  ∀ w', files (disk w') = files (disk (Update env c w).2) →
        faults (disk w') = faults (disk w) →
        time.Sub (clock (disk w')) t <= UpdateCheckMaxFrequency (config c) →
        Update env c w' = ((false, None), w').
Proof.
  intros Ha Hr Hc Hwr Hrd Hrb Hz.
  destruct (Update_paths env c w current None None Ha Hr Hc) as (H1 & _).
  destruct (H1 eq_refl eq_refl) as (Hres & _ & Hdisk).
  split; [done|]. intros w' Hf Ho Hle. apply Update_denied.
  pose proof (setLast_marker_holds c w t Hwr Hrd Hrb) as Hh.
  destruct (setLast_frame c w) as (_ & Hfa & _).
  rewrite Hdisk in Hf.
  assert (marker_holds env c (disk w') t) as Hh'.
  { unfold marker_holds in *.
    rewrite (same_tree_Stat _ _ _ Hf (eq_trans Ho (eq_sym Hfa))).
    by rewrite (same_tree_Open _ _ _ Hf (eq_trans Ho (eq_sym Hfa))). }
  rewrite (isUpdateCheckAllowed_holds c w' t Hz Hh'). lia.
Qed.

(** ** What is read, what is written *)

Lemma same_node_Stat p d d' :
  faults d' = faults d → node_at (files d') p = node_at (files d) p →
  Stat p d' = Stat p d.
Proof. intros Hf Hn. unfold Stat. by rewrite Hf, Hn. Qed.

Lemma same_node_Open p d d' :
  faults d' = faults d → node_at (files d') p = node_at (files d) p →
  Open p d' = Open p d.
Proof. intros Hf Hn. unfold Open. by rewrite Hf, Hn. Qed.

Lemma same_node_readDatabaseDescription dir d d' :
  faults d' = faults d →
  node_at (files d') (descriptor_path env dir) = node_at (files d) (descriptor_path env dir) →
  readDatabaseDescription env dir d' = readDatabaseDescription env dir d.
Proof.
  unfold descriptor_path. intros Hf Hn.
  unfold readDatabaseDescription, file_Exists. unfold_M.
  rewrite (same_node_Stat _ _ _ Hf Hn).
  destruct (Stat _ d) as [[|s]|e]; reduce; try done.
  - rewrite (same_node_Open _ _ _ Hf Hn). destruct (Open _ d); reduce; [|done].
    by destruct (Decode _ _ _).
  - split_cases.
Qed.

(** X21. [validateIntegrity] looks at two entries of the tree only: on
    two disks with the same failing calls that hold the same descriptor
    and the same payload in the directory, it answers the same, whatever
    else differs. *)
Theorem validateIntegrity_reads_two_entries (c : curator) (dir : path) (d d' : Disk) :
  faults d' = faults d →
  node_at (files d') (descriptor_path env dir) = node_at (files d) (descriptor_path env dir) →
  node_at (files d') (payload_path env dir) = node_at (files d) (payload_path env dir) →
  validateIntegrity env c dir d' = validateIntegrity env c dir d.
Proof.
  intros Hf Hd Hy. unfold payload_path in Hy.
  unfold validateIntegrity, file_ValidateByHash. unfold_M.
  rewrite (same_node_readDatabaseDescription _ _ _ Hf Hd).
  destruct (readDatabaseDescription env dir d) as [[m|]|e]; reduce; try done.
  destruct (ValidateChecksum (config c)); reduce.
  - rewrite (same_node_Open _ _ _ Hf Hy). split_cases.
  - split_cases.
Qed.

(** X22. [setLastSuccessfulUpdateCheck] does not create the database
    directory: where it is missing the marker is not written, the disk
    is as it was, and the failure is only logged at trace level. *)
Theorem setLast_without_directory (c : curator) (w : World) :
  is_dir (files (disk w)) (DBDirectoryPath env (config c)) = false →
  disk (setLastSuccessfulUpdateCheck env c w).2 = disk w ∧
  events_since w (setLastSuccessfulUpdateCheck env c w).2
    [EvLog LvlTrace "unable to write last update check timestamp"; marker_write env c].
Proof.
  intros Hd.
  assert (parent (marker_path env c) = DBDirectoryPath env (config c)) as Hp
    by apply removelast_last.
  unfold setLastSuccessfulUpdateCheck, OpenFileCreate, events_since. unfold_M. reduce.
  fold (marker_path env c). rewrite Hp, Hd.
  by destruct (faults (disk w) OpCreate (marker_path env c)).
Qed.

Lemma no_file_above_outside (p q : path) (fs : Files) :
  no_file_above fs q = true → no_file_above (outside p fs) q = true.
Proof.
  unfold no_file_above. rewrite !forallb_forall. intros H n Hn.
  specialize (H n Hn). revert H. unfold node_at.
  destruct (take n q) as [|x k] eqn:Hk; [done|].
  destruct (outside p fs !! (x :: k)) as [y|] eqn:Hy; [|done].
  apply map_lookup_filter_Some in Hy as [-> _]. done.
Qed.

(** X23. Deleting and then updating starts from scratch: after a
    [Delete] that succeeded, on a tree where no regular file sits in the
    place of a directory leading to the database directory and stats
    work, the root is fresh, so the throttle is open (the marker went
    with the directory), no current descriptor is read, and the next
    [Update] asks the client with a nil description and never fails on
    reading the current database. *)
Theorem Update_after_Delete (c : curator) (w : World) :
  faults (disk w) OpRemoveAll (DBDirectoryPath env (config c)) = false →
  no_file_above (files (disk w)) (DBDirectoryPath env (config c)) = true →
  (∀ p, faults (disk w) OpStat p = false) →
  let w1 := (Delete env c w).2 in
  fresh_root env c (disk w1) ∧
  (isUpdateCheckAllowed env c w1).1 = true ∧
  readDatabaseDescription env (DBDirectoryPath env (config c)) (disk w1) = Ok None ∧
  (∀ e, (Update env c w1).1 ≠ (false, Some (ErrReadCurrent e))) ∧
  ∃ new, events_since w1 (Update env c w1).2 new ∧ EvIsUpdateAvailable None ∈ new.
Proof.
  intros Hf Hnf Hs. cbv zeta.
  assert (fresh_root env c (disk (Delete env c w).2)) as Hfr.
  { unfold fresh_root, Delete, RemoveAll. reduce. rewrite Hf. reduce.
    split; [apply under_outside_same|]. split; [by apply no_file_above_outside|done]. }
  destruct (fresh_root_absent _ _ _ Hfr) as [Hm Hd].
  split; [done|]. split; [by apply isUpdateCheckAllowed_absent|].
  split; [by apply readDatabaseDescription_absent|].
  by apply Update_fresh_root.
Qed.

End Further.

(** ** The further properties on the concrete installation *)

Import Installations.

Lemma not_prefix_computed (p q : path) :
  bool_decide (p `prefix_of` q) = false → ¬ p `prefix_of` q.
Proof. apply bool_decide_eq_false_1. Qed.

Lemma apart_computed (p q : path) :
  bool_decide (p `prefix_of` q) = false → bool_decide (q `prefix_of` p) = false →
  apart p q.
Proof. intros H1 H2. split; by apply not_prefix_computed. Qed.

(** Deleting the installed database empties the active directory and
    leaves the root in place. *)
Lemma Delete_removes_only_active_witness :
  (Delete env (curator_of upToDate) installed).1 = None ∧
  under active (files (disk (Delete env (curator_of upToDate) installed).2)) = ∅ ∧
  files (disk (Delete env (curator_of upToDate) installed).2) !! root = Some Dir.
Proof.
  destruct (Delete_removes_only_active env (curator_of upToDate) installed)
    as (H1 & H2 & H3 & _); [compute_eq|].
  split; [exact H1|]. split; [exact H2|].
  rewrite H3; [compute_eq|]. apply not_prefix_computed. compute_eq.
Defined.

(** Deleting the database of model 6 leaves the directory of model 5. *)
Lemma Delete_spares_other_models_witness :
  under (root ++ [Itoa 5]) (files (disk (Delete env (curator_of upToDate) both_models).2))
    = under (root ++ [Itoa 5]) (files (disk both_models)) ∧
  files (disk (Delete env (curator_of upToDate) both_models).2)
    !! (root ++ ["5"; "vulnerability.db"]) = Some (File "payload-v5").
Proof.
  split; [|compute_eq].
  apply (Delete_spares_other_models env (curator_of upToDate) both_models 5);
    [discriminate|compute_eq].
Defined.

(** After deleting the installed database, validation, status and reader
    all report that nothing is there. *)
Lemma Delete_then_nothing_installed_witness :
  let w' := (Delete env (curator_of upToDate) installed).2 in
  validate env (curator_of upToDate) (disk w') = Some (ErrMetadataNotFound active) ∧
  db.StatusErr (Status env (curator_of upToDate) (disk w')) = Some (ErrStatusNotFound active) ∧
  (Reader env (curator_of upToDate) w').1.2 ≠ None.
Proof.
  cbv zeta.
  destruct (Delete_then_nothing_installed env (curator_of upToDate) installed)
    as (_ & _ & H3 & H4); [compute_eq|].
  destruct H4 as (_ & H5 & H6); [compute_eq|].
  split; [exact H5|]. split; [exact H6|exact H3].
Defined.

(** Activating a sound download replaces the outdated database: the
    payload of the download is the active one, the staged directory is
    gone, the root is untouched. *)
Lemma activate_promotes_staged_witness :
  let w' := (activate env (curator_of newer) staging staged_fresh).2 in
  files (disk w') !! (active ++ ["vulnerability.db"]) = Some (File "payload-new") ∧
  under staging (files (disk w')) = ∅ ∧
  files (disk w') !! root = Some Dir.
Proof.
  cbv zeta.
  destruct (activate_promotes_staged env (curator_of newer) staging staged_fresh)
    as (H1 & H2 & H3); [by apply apart_computed|compute_eq|].
  cbv zeta in *. split; [|split; [exact H2|]].
  - etrans; [apply (H1 ["vulnerability.db"])|compute_eq].
  - etrans; [apply H3; apply not_prefix_computed; compute_eq|compute_eq].
Defined.

(** The activated download validates; a download that is already ten
    days old activates as well and is then rejected as stale. *)
Lemma activate_installs_validated_witness :
  validateIntegrity env (curator_of newer) active
    (disk (activate env (curator_of newer) staging staged_fresh).2) = Ok fresh ∧
  validate env (curator_of newer)
    (disk (activate env (curator_of newer) staging staged_fresh).2) = None ∧
  (activate env (curator_of newer) staging staged_old).1 = None ∧
  validate env (curator_of newer)
    (disk (activate env (curator_of newer) staging staged_old).2) ≠ None.
Proof.
  destruct (activate_installs_validated env (curator_of newer) staging staged_fresh)
    as (m & Hm & Hv & Hs & _);
    [by apply apart_computed|repeat split|compute_eq|].
  assert (m = fresh) as ->.
  { assert (validateIntegrity env (curator_of newer) staging (disk staged_fresh) = Ok fresh)
      as H by compute_eq. congruence. }
  destruct (activate_installs_validated env (curator_of newer) staging staged_old)
    as (m' & Hm' & _ & _ & Hold);
    [by apply apart_computed|repeat split|compute_eq|].
  assert (m' = old) as ->.
  { assert (validateIntegrity env (curator_of newer) staging (disk staged_old) = Ok old)
      as H by compute_eq. congruence. }
  split; [exact Hv|]. split; [rewrite Hs; compute_eq|]. split; [compute_eq|].
  apply Hold; [reflexivity|]. vm_compute. reflexivity.
Defined.

(** Half an hour after a check the throttle is closed; activating a
    download that carries no marker opens it again. *)
Lemma activate_resets_throttle_witness :
  (isUpdateCheckAllowed env (curator_of newer) staged_after_check).1 = false ∧
  (isUpdateCheckAllowed env (curator_of newer)
     (activate env (curator_of newer) staging staged_after_check).2).1 = true.
Proof.
  split; [compute_eq|].
  destruct (activate_resets_throttle env (curator_of newer) staging staged_after_check)
    as (_ & H); [by apply apart_computed|compute_eq|].
  apply H. compute_eq.
Defined.

(** An installation whose descriptor is not JSON: the update stops at
    reading it. *)
Lemma Update_read_failure_witness :
  (Update env (curator_of newer) descriptor_garbled).1
    = (false, Some (ErrReadCurrent
         (ErrDecodeMetadata (active ++ ["description.json"])
            (ErrExternal "invalid character looking for beginning of value")))) ∧
  disk (Update env (curator_of newer) descriptor_garbled).2 = disk descriptor_garbled.
Proof.
  destruct (Update_read_failure env (curator_of newer) descriptor_garbled
              (ErrDecodeMetadata (active ++ ["description.json"])
                 (ErrExternal "invalid character looking for beginning of value")))
    as (H1 & H2 & _); [compute_eq..|].
  split; [exact H1|exact H2].
Defined.

(** On an empty tree the import fails at making its directory. *)
Lemma Import_without_root_witness :
  (Import env (curator_of upToDate) "bundle.tar" no_root).1
    = Some (ErrTempDir (ErrNotExist root)) ∧
  disk (Import env (curator_of upToDate) "bundle.tar" no_root).2 = disk no_root.
Proof.
  destruct (Import_without_root env (curator_of upToDate) "bundle.tar" no_root)
    as (_ & H2 & _); [compute_eq|].
  split; [compute_eq|exact H2].
Defined.

(** Importing a sound bundle over the outdated database. *)
Lemma Import_installs_validated_witness :
  (Import env (curator_of upToDate) "bundle.tar" outdated).1 = None ∧
  validateIntegrity env (curator_of upToDate) active
    (disk (Import env (curator_of upToDate) "bundle.tar" outdated).2) = Ok fresh ∧
  files (disk (Import env (curator_of upToDate) "bundle.tar" outdated).2)
    !! (active ++ ["vulnerability.db"]) = Some (File "payload-new") ∧
  under import_dir (files (disk (Import env (curator_of upToDate) "bundle.tar"
                                   outdated).2)) = ∅.
Proof.
  destruct (Import_installs_validated env (curator_of upToDate) "bundle.tar" outdated)
    as (_ & _ & _ & (m & Hm & Hv) & Hl & Hu & _); [repeat split|compute_eq|].
  split; [compute_eq|]. split; [|split].
  - vm_compute in Hm. injection Hm as <-. exact Hv.
  - etrans; [apply (Hl ["vulnerability.db"])|compute_eq].
  - exact Hu.
Defined.

(** A client error next to a candidate is logged and nothing more: the
    candidate is installed and the check recorded. *)
Example Update_candidate_with_client_error :
  IsUpdateAvailable both_answers (Some old)
    = (Some candidate, Some (ErrExternal "listing is outdated")) ∧
  (Update env (curator_of both_answers) outdated).1 = (true, None) ∧
  files (disk (Update env (curator_of both_answers) outdated).2) !! marker
    = Some (File "2026-10-30T10:00:00Z").
Proof. repeat split; compute_eq. Qed.

(** Importing over an installation whose last check was half an hour
    ago: the marker goes with the replaced directory. *)
Example Import_drops_marker :
  files (disk checked_recently) !! marker = Some (File "2026-10-30T09:30:00Z") ∧
  (Import env (curator_of upToDate) "bundle.tar" checked_recently).1 = None ∧
  files (disk (Import env (curator_of upToDate) "bundle.tar" checked_recently).2)
    !! marker = None.
Proof. repeat split; compute_eq. Qed.

(** The first update of a fresh root answers [true]: the download was
    validated, activated and recorded, and the active directory
    validates. *)
Lemma Update_true_means_activated_witness :
  (Update env (curator_of newer) first_run).1 = (true, None) ∧
  recorded env (curator_of newer) first_run (Update env (curator_of newer) first_run).2 ∧
  ∃ m, validateIntegrity env (curator_of newer) active
         (disk (Update env (curator_of newer) first_run).2) = Ok m.
Proof.
  destruct (Update_true_means_activated env (curator_of newer) first_run)
    as (_ & _ & cur & u & ce & dest & m & _ & _ & Hdl & _ & _ & Hrec & Hv); [compute_eq|].
  cbv zeta in *.
  assert (dest = staging) as ->
    by (vm_compute in Hdl; injection Hdl as <-; reflexivity).
  split; [compute_eq|]. split; [exact Hrec|]. exists m.
  apply Hv; [by apply apart_computed|repeat split|split; discriminate].
Defined.

(** The installed database, built a day ago, is accepted now and was
    accepted a day earlier. *)
Lemma ensureNotStale_monotone_witness :
  ensureNotStale (curator_of upToDate) (Some fresh) (disk (later (- Day) installed)) = None.
Proof.
  destruct (ensureNotStale_monotone (curator_of upToDate) fresh
              (disk (later (- Day) installed)) (disk installed)) as [H _];
    [vm_compute; discriminate|].
  apply H. compute_eq.
Defined.

(** Three hours after a check the throttle is open, and a day later it
    still is. *)
Lemma isUpdateCheckAllowed_monotone_witness :
  (isUpdateCheckAllowed env (curator_of upToDate) (later Day checked_long_ago)).1 = true.
Proof.
  apply (isUpdateCheckAllowed_monotone env (curator_of upToDate) checked_long_ago);
    [reflexivity|reflexivity|vm_compute; discriminate|compute_eq].
Defined.

(** A check recorded now closes the throttle for the next two hours and
    no longer. *)
Lemma recorded_check_throttles_witness :
  let w1 := (setLastSuccessfulUpdateCheck env (curator_of upToDate) installed).2 in
  files (disk w1) !! marker = Some (File "2026-10-30T10:00:00Z") ∧
  (isUpdateCheckAllowed env (curator_of upToDate) (later time.Hour w1)).1 ≠ true ∧
  (isUpdateCheckAllowed env (curator_of upToDate) (later (3 * time.Hour) w1)).1 = true.
Proof.
  cbv zeta.
  destruct (recorded_check_throttles env (curator_of upToDate) installed now)
    as (_ & H);
    [repeat split; try compute_eq; discriminate
    |repeat split
    |exists "2026-10-30T10:00:00Z"; repeat split; compute_eq
    |discriminate|].
  cbv zeta in H. split; [compute_eq|]. split.
  - intros Ha. apply H in Ha; [|reflexivity|compute_eq]. vm_compute in Ha. discriminate Ha.
  - apply H; [reflexivity|compute_eq|vm_compute; reflexivity].
Defined.

(** Updating twice in a row against a server that has nothing new: the
    second update does nothing at all. *)
Lemma Update_then_throttled_witness :
  let w1 := (Update env (curator_of upToDate) installed).2 in
  (Update env (curator_of upToDate) installed).1 = (false, None) ∧
  Update env (curator_of upToDate) w1 = ((false, None), w1).
Proof.
  cbv zeta.
  destruct (Update_then_throttled env (curator_of upToDate) installed (Some fresh) now)
    as (H1 & H2);
    [compute_eq|compute_eq|reflexivity
    |repeat split; try compute_eq; discriminate
    |repeat split
    |exists "2026-10-30T10:00:00Z"; repeat split; compute_eq
    |discriminate|].
  split; [exact H1|]. apply H2; [reflexivity|compute_eq|vm_compute; discriminate].
Defined.

(** The installed database validates the same once a marker is written
    next to it. *)
Lemma validateIntegrity_reads_two_entries_witness :
  validateIntegrity env (curator_of upToDate) active (disk marker_garbled)
    = validateIntegrity env (curator_of upToDate) active (disk installed).
Proof.
  apply (validateIntegrity_reads_two_entries env (curator_of upToDate) active);
    compute_eq.
Defined.

(** On a first run with nothing to download there is no database
    directory, and the check is not recorded. *)
Lemma setLast_without_directory_witness :
  disk (setLastSuccessfulUpdateCheck env (curator_of upToDate) first_run).2
    = disk first_run ∧
  files (disk (setLastSuccessfulUpdateCheck env (curator_of upToDate) first_run).2)
    !! marker = None.
Proof.
  destruct (setLast_without_directory env (curator_of upToDate) first_run) as [H _];
    [compute_eq|].
  split; [exact H|compute_eq].
Defined.

(** Deleting the installed database half an hour after a check and
    updating again: the client is asked and the database is installed
    anew. *)
Lemma Update_after_Delete_witness :
  let w1 := (Delete env (curator_of newer) checked_recently).2 in
  (isUpdateCheckAllowed env (curator_of newer) checked_recently).1 = false ∧
  (isUpdateCheckAllowed env (curator_of newer) w1).1 = true ∧
  (Update env (curator_of newer) w1).1 = (true, None).
Proof.
  cbv zeta.
  destruct (Update_after_Delete env (curator_of newer) checked_recently)
    as (_ & H & _); [compute_eq|compute_eq|reflexivity|].
  split; [compute_eq|]. split; [exact H|compute_eq].
Defined.
